(** * Grawlix: phoneme sequencing and SC-01 chip protocol

    A shallow embedding of the Grawlix firmware (a Votrax SC-01 speech
    synthesiser driver for the Daisy platform) and the properties of its
    sequencing core.

    The repository holds the sketch in more than one revision.  Everything
    that the revisions share word for word is embedded once at top level;
    what differs is embedded twice:
    - [Ino]      follows [src/grawlix.ino] (switch statements without [break],
                 bipolar grid inputs, [analogRead] entropy);
    - [PatchSM]  follows [src/unnamed/part_000] (switch statements with
                 [break], the TIM3 register level [HardwarePWM]).
    The class Grawlix of [src/unnamed/part_001] reads as the one of
    [src/grawlix.ino].

    Conventions of the embedding:
    - a C++ [int] / [long] is a [Z]; the values met here stay far from the
      32-bit limits, unsigned arithmetic ([uint32_t], [byte]) has its
      wrap-around written out;
    - a [float] control value is a rational [Q]; the only float operation
      the sequencing code performs on it is the conversion to an integer
      (truncation toward zero);
    - a [String] is a [string]; an array is a [list] read and written by
      index;
    - the hardware is a [Platform] record of input oracles, indexed by the
      number of samples taken so far, and a trace of output [Event]s. *)

From Stdlib Require Import ZArith QArith List String Ascii Bool Lia DecimalString.
From stdpp Require Import base list.

Import ListNotations.
Local Open Scope string_scope.
Local Open Scope list_scope.
Local Open Scope Z_scope.

(** ** Static tables *)

(** Valid Votrax phoneme symbols per SC-01 documentation. *)
Definition validSymbols : list string :=
  [ "EH3"; "EH2"; "EH1"; "PA0"; "DT"; "A2"; "A1"; "ZH";
    "AH2"; "I3"; "I2"; "I1"; "M"; "N"; "B"; "V";
    "CH"; "SH"; "Z"; "AW1"; "NG"; "AH1"; "OO1"; "OO";
    "L"; "K"; "J"; "H"; "G"; "F"; "D"; "S";
    "A"; "AY"; "Y1"; "UH3"; "AH"; "P"; "O"; "I";
    "U"; "Y"; "T"; "R"; "E"; "W"; "AE"; "AE1";
    "AW2"; "UH2"; "UH1"; "UH"; "O2"; "O1"; "IU"; "U1";
    "THV"; "TH"; "ER"; "EH"; "E1"; "AW"; "PA1"; "STOP" ].

(** Phoneme codes in XY arrangement per SC-01 documentation. *)
Definition vowelGrid : list (list Z) :=
  [ [ 44; 59; 46; 51; 22 ];
    [ 60; 2; 47; 50; 43 ];
    [ 41; 1; 36; 49; 58 ];
    [ 34; 0; 21; 35; 24 ];
    [ 39; 32; 8; 38; 54 ];
    [ 11; 6; 61; 53; 40 ];
    [ 10; 5; 19; 52; 55 ];
    [ 9; 33; 48; 23; 45 ] ].

(** The pins the sketch names.  Both revisions use the same names; the
    numbers behind them differ ([src/grawlix.ino] gives them as below,
    [src/unnamed/part_000] as the board constants D1 to D6). *)
Inductive Pin : Type :=
| rdm       (* In from   n/a           (Noise Source) *)
| vAr       (* In from   SC-01, 8      (A/R, Acknowledge) *)
| vStb      (* Out to    SC-01, 7      (STB, Strobe) *)
| vClk      (* Out to    SC-01, 15     (MCX, External Clock) *)
| srData    (* Out to    74HC595, 14   (DS, Serial In) *)
| srLatch   (* Out to    74HC595, 12   (STCP Shift Clock In) *)
| srClk.    (* Out to    74HC595, 11   (SHCP Storage Clock In) *)

Definition pin_number (p : Pin) : Z :=
  match p with
  | rdm => 26 | vAr => 10 | vStb => 11 | vClk => 12
  | srData => 13 | srLatch => 14 | srClk => 15
  end.

Definition HIGH : bool := true.
Definition LOW : bool := false.

(** ** Arduino core functions used by the sketch *)

(** [String::operator[]]: the character code at [index], 0 past the end. *)
Definition charAt (s : string) (index : Z) : Z :=
  if index <? 0 then 0
  else match String.get (Z.to_nat index) s with
       | Some c => Z.of_nat (nat_of_ascii c)
       | None => 0
       end.

(** Conversion of an [int] to a [byte]. *)
Definition to_byte (z : Z) : Z := z mod 256.

(** Conversion of a finite [float] to an integer type: the fraction is
    discarded. *)
Definition float_to_long (q : Q) : Z := Z.quot (Qnum q) (Zpos (Qden q)).

(** [long map(long x, long in_min, long in_max, long out_min, long out_max)]
    of the Arduino core; the division is C's, truncating toward zero.  The
    function does not constrain its result to the output range. *)
Definition map_long (x in_min in_max out_min out_max : Z) : Z :=
  Z.quot ((x - in_min) * (out_max - out_min)) (in_max - in_min) + out_min.

(** [long random(long howsmall, long howbig)] of the Arduino core, on the
    raw draw [r] of the C library generator: [howbig] is excluded. *)
Definition random_upto (r : N) (howbig : Z) : Z :=
  if howbig =? 0 then 0 else Z.rem (Z.of_N r) howbig.

Definition random_range (r : N) (howsmall howbig : Z) : Z :=
  if howsmall >=? howbig then howsmall
  else random_upto r (howbig - howsmall) + howsmall.

(** ** class Phoneme *)

Module Phoneme.

Record t : Type := mk {
  symbolIndex : Z;      (* 0 ~ 64 *)
  inflectionIndex : Z;  (* 0 ~ 3 *)
  payload : Z           (* 8 bits to send to SC-01 *)
}.

(** The loop of the constructor: every one of the 64 rounds overwrites
    [symbolIndex], comparing the integer [inflection] with the character
    [symbol[i]]. *)
Definition symbol_loop (symbol : string) (inflection : Z) (init : Z) : Z :=
  fold_left (fun (_ : Z) (i : nat) =>
               if inflection =? charAt symbol (Z.of_nat i)
               then Z.of_nat i else 3)
            (seq 0 64) init.

(** [Phoneme(String symbol, int inflection)], without its log line. *)
Definition ctor (symbol : string) (inflection : Z) : t :=
  let symbolIndex := symbol_loop symbol inflection 3 in
  let inflectionIndex :=
    if (inflection >=? 0) && (inflection <=? 3) then inflection else 0 in
  let payload := to_byte (Z.shiftl inflectionIndex 6) in
  let payload := to_byte (Z.lor payload symbolIndex) in
  mk symbolIndex inflectionIndex payload.

End Phoneme.

(** The encoding the specification describes: the inflection validated to
    [0,3], the canonical index of the symbol name in [validSymbols], 3 when
    the name is unknown. *)
Fixpoint index_of (name : string) (l : list string) (i : Z) : option Z :=
  match l with
  | [] => None
  | s :: l' => if String.eqb s name then Some i else index_of name l' (i + 1)
  end.

Definition encode_spec (symbol : string) (inflection : Z) : Z :=
  let inflectionIndex :=
    if (inflection >=? 0) && (inflection <=? 3) then inflection else 0 in
  let symbolIndex :=
    match index_of symbol validSymbols 0 with Some i => i | None => 3 end in
  Z.lor (Z.shiftl inflectionIndex 6) symbolIndex.

(** ** The platform: inputs, outputs, outcomes *)

(** What the firmware does to its pins, in program order. *)
Inductive Event : Type :=
| DigitalWrite (pin : Pin) (level : bool)
| DigitalRead (pin : Pin)
| Delay (ms : Z).

(** The inputs of the board and the library state the sketch does not
    define.  An oracle of type [nat -> A] gives the value an input has at the
    n-th sample the program takes.  [indeterminate] stands for the values the
    C++ code leaves unspecified: what a value-returning function yields when
    it ends without a [return], and what an uninitialised local holds. *)
Record Platform : Type := {
  pSw1_Pressed : nat -> bool;
  pSw2_Pressed : nat -> bool;
  aSw1_Pressed : nat -> bool;
  aSw2_Pressed : nat -> bool;
  button_Pressed : nat -> bool;
  button1_Pressed : nat -> bool;
  gate_State : nat -> bool;
  x_Process : nat -> Q;
  y_Process : nat -> Q;
  x_Value : nat -> Q;
  y_Value : nat -> Q;
  rdm_Value : nat -> Q;
  analogRead_pin : Pin -> nat -> Z;
  digitalRead_pin : Pin -> nat -> bool;
  srandom : Z -> Z;             (* seed -> state of the generator *)
  random_raw : Z -> N * Z;      (* state -> raw draw, next state *)
  indeterminate : nat -> Z
}.

(** *** class Phrase (data) *)
Module Phrase.

Definition maxLength : Z := 32.

Record t : Type := mk {
  symbols : list string;
  inflections : list Z;
  length : Z
}.

(** The members as the global object has them at start-up: empty
    [String]s, zeroed [int]s, [length = 32]. *)
Definition init : t :=
  mk (replicate (Z.to_nat maxLength) "") (replicate (Z.to_nat maxLength) 0) 32.

Definition set_length (n : Z) (p : t) : t :=
  mk (symbols p) (inflections p) n.
Definition set_symbols (l : list string) (p : t) : t :=
  mk l (inflections p) (length p).
Definition set_inflections (l : list Z) (p : t) : t :=
  mk (symbols p) l (length p).

End Phrase.

(** *** class Votrax (data) *)
Module Votrax.
Record t : Type := mk { ar : bool }.
End Votrax.

(** *** class Grawlix (data) *)
Record Grawlix : Type := mkGrawlix {
  phonemeMode : Z;
  advanceMode : Z;
  memoryIndex : Z;
  phrase : Phrase.t;
  sc01 : Votrax.t
}.

(** The global [Grawlix g]: static storage is zeroed before the default
    member initialisers run. *)
Definition Grawlix_init : Grawlix :=
  mkGrawlix 0 0 0 Phrase.init (Votrax.mk false).

Definition set_phrase (p : Phrase.t) (o : Grawlix) : Grawlix :=
  mkGrawlix (phonemeMode o) (advanceMode o) (memoryIndex o) p (sc01 o).

(** The whole machine. *)
Record World : Type := mkWorld {
  hw : Platform;
  debug : bool;            (* the global [bool debug] *)
  g : Grawlix;             (* the global sketch object *)
  now : nat;               (* samples taken so far *)
  rng : Z;                 (* state of the C library generator *)
  pins : list Event;       (* pin activity so far, oldest first *)
  serial : list string     (* lines printed so far, oldest first *)
}.

(** How a piece of the sketch ends: it returns, it spins for ever in an
    empty [while] loop, it reads or writes outside an array, or the bound
    given to an input polling loop ran out. *)
Inductive Outcome (A : Type) : Type :=
| Done (a : A) (w : World)
| Spin (w : World)
| Fault (w : World)
| OutOfFuel (w : World).

Arguments Done {A} a w.
Arguments Spin {A} w.
Arguments Fault {A} w.
Arguments OutOfFuel {A} w.

Definition M (A : Type) : Type := World -> Outcome A.

Definition ret {A : Type} (a : A) : M A := fun w => Done a w.

Definition bind {A B : Type} (m : M A) (k : A -> M B) : M B :=
  fun w =>
    match m w with
    | Done a w' => k a w'
    | Spin w' => Spin w'
    | Fault w' => Fault w'
    | OutOfFuel w' => OutOfFuel w'
    end.

Notation "x <- m ;; k" := (bind m (fun x => k))
  (at level 100, m at next level, right associativity).
Notation "m ;; k" := (bind m (fun _ => k))
  (at level 100, right associativity).

Definition spin {A : Type} : M A := fun w => Spin w.
Definition fault {A : Type} : M A := fun w => Fault w.

(** Read a field of the sketch object. *)
Definition gets {A : Type} (f : Grawlix -> A) : M A :=
  fun w => Done (f (g w)) w.

(** Update the phrase member. *)
Definition modify_phrase (f : Phrase.t -> Phrase.t) : M unit :=
  fun w =>
    Done tt (mkWorld (hw w) (debug w) (set_phrase (f (phrase (g w))) (g w))
                     (now w) (rng w) (pins w) (serial w)).

(** Take one sample of an input. *)
Definition sample {A : Type} (f : Platform -> nat -> A) : M A :=
  fun w =>
    Done (f (hw w) (now w))
         (mkWorld (hw w) (debug w) (g w) (S (now w)) (rng w) (pins w) (serial w)).

Definition emit (e : Event) : M unit :=
  fun w =>
    Done tt (mkWorld (hw w) (debug w) (g w) (now w) (rng w)
                     (pins w ++ [e]) (serial w)).

Fixpoint emit_all (l : list Event) : M unit :=
  match l with
  | [] => ret tt
  | e :: l' => emit e ;; emit_all l'
  end.

(** [for (int i = 0; i < n; i++) body], for a bound the body leaves alone. *)
Fixpoint for_each (l : list nat) (body : nat -> M unit) : M unit :=
  match l with
  | [] => ret tt
  | i :: l' => body i ;; for_each l' body
  end.

Definition for_upto (n : Z) (body : nat -> M unit) : M unit :=
  for_each (seq 0 (Z.to_nat n)) body.

(** [a[i]] for reading and [a[i] = v] for writing; an index outside the
    array is a fault. *)
Definition lookupZ {A : Type} (l : list A) (i : Z) : option A :=
  if i <? 0 then None else l !! Z.to_nat i.

Definition array_read {A : Type} (l : list A) (i : Z) : M A :=
  match lookupZ l i with
  | Some a => ret a
  | None => fault
  end.

Definition array_write {A : Type} (l : list A) (i : Z) (v : A) : M (list A) :=
  match lookupZ l i with
  | Some _ => ret (<[Z.to_nat i := v]> l)
  | None => fault
  end.

(** *** Arduino core, effectful part *)

Definition digitalWrite (pin : Pin) (level : bool) : M unit :=
  emit (DigitalWrite pin level).

Definition digitalRead (pin : Pin) : M bool :=
  emit (DigitalRead pin) ;; sample (fun p => digitalRead_pin p pin).

Definition analogRead (pin : Pin) : M Z :=
  sample (fun p => analogRead_pin p pin).

Definition delay (ms : Z) : M unit := emit (Delay ms).

(** [shiftOut(dataPin, clockPin, MSBFIRST, val)]: bit 7 first, one clock
    pulse per bit. *)
Definition shiftOut_events (dataPin clockPin : Pin) (val : Z) : list Event :=
  flat_map (fun i : nat =>
              [ DigitalWrite dataPin (Z.testbit val (7 - Z.of_nat i));
                DigitalWrite clockPin HIGH;
                DigitalWrite clockPin LOW ])
           (seq 0 8).

Definition shiftOut_MSBFIRST (dataPin clockPin : Pin) (val : Z) : M unit :=
  emit_all (shiftOut_events dataPin clockPin val).

Definition u32 (z : Z) : Z := z mod 2 ^ 32.
Definition u16 (z : Z) : Z := z mod 2 ^ 16.

(** [randomSeed(seed)]: a zero seed leaves the generator alone. *)
Definition randomSeed (seed : Z) : M unit :=
  fun w =>
    if u32 seed =? 0 then Done tt w
    else Done tt (mkWorld (hw w) (debug w) (g w) (now w)
                          (srandom (hw w) (u32 seed)) (pins w) (serial w)).

(** One raw draw of the C library generator. *)
Definition draw : M N :=
  fun w =>
    let (r, s) := random_raw (hw w) (rng w) in
    Done r (mkWorld (hw w) (debug w) (g w) (now w) s (pins w) (serial w)).

(** [random(howsmall, howbig)]. *)
Definition random (howsmall howbig : Z) : M Z :=
  if howsmall >=? howbig then ret howsmall
  else r <- draw ;; ret (random_range r howsmall howbig).

(** [String(int)]: the decimal numeral. *)
Definition String_of_int (z : Z) : string :=
  NilZero.string_of_int (Z.to_int z).

(** ** The sketch *)

(** Prints a message to the serial monitor if debug == true. *)
Definition debugPrint (message : string) : M unit :=
  fun w =>
    if debug w
    then Done tt (mkWorld (hw w) (debug w) (g w) (now w) (rng w) (pins w)
                          (serial w ++ [message]))
    else Done tt w.

(** The value of a [bool] the code leaves unspecified. *)
Definition indeterminate_bool : M bool :=
  z <- sample indeterminate ;; ret (negb (z =? 0)).

(** *** Grawlix::updateMode *)

(** The local copy [mode] at the end of the body. *)
Definition updateMode_local (mode : Z) (a b : bool) : Z :=
  let mode := if negb a && negb b then 1 else mode in
  let mode := if a && negb b then 2 else mode in
  let mode := if negb a && b then 3 else mode in
  mode.

(** [int updateMode(int mode, bool a, bool b)]: [mode] is a parameter passed
    by value; the body assigns it, prints, and ends without a [return]. *)
Definition updateMode (mode : Z) (a b : bool) : M Z :=
  let mode := updateMode_local mode a b in
  debugPrint "Advance Mode Updated." ;;
  sample indeterminate.

(** *** Phrase::setFromMemory *)
Definition setFromMemory : M unit :=
  let slot := 1 in
  debugPrint "Loaded new phrase from memory slot #slot".

(** *** Phoneme::Phoneme with its log line *)
Definition Phoneme_new (symbol : string) (inflection : Z) : M Phoneme.t :=
  let p := Phoneme.ctor symbol inflection in
  debugPrint ("Phoneme" ++ symbol ++ ", "
              ++ String_of_int (Phoneme.inflectionIndex p) ++ " = "
              ++ String_of_int (Phoneme.payload p))%string ;;
  ret p.

(** *** Votrax::arUpdate: the pin is read, the comparison is dropped, and
    the function ends without a [return]. *)
Definition arUpdate : M bool :=
  level <- digitalRead vAr ;;
  let _ := if eqb level HIGH then true else false in
  debugPrint "Ar pulse received." ;;
  indeterminate_bool.

(** *** Votrax::strobe *)
Definition strobeTime : Z := 150.

Definition strobe : M unit :=
  digitalWrite vStb HIGH ;;
  delay strobeTime ;;
  digitalWrite vStb LOW ;;
  debugPrint "SC-01 Input register updated".

(** Array members of the phrase, written through the object. *)
Definition write_symbol (i : Z) (name : string) : M unit :=
  syms <- gets (fun o => Phrase.symbols (phrase o)) ;;
  syms' <- array_write syms i name ;;
  modify_phrase (Phrase.set_symbols syms').

Definition write_inflection (i : Z) (v : Z) : M unit :=
  infl <- gets (fun o => Phrase.inflections (phrase o)) ;;
  infl' <- array_write infl i v ;;
  modify_phrase (Phrase.set_inflections infl').

(** ** src/grawlix.ino *)
Module Ino.

(** Votrax::shiftUpdate *)
Definition shiftUpdate (data : Z) : M unit :=
  shiftOut_MSBFIRST srData srClk data ;;
  digitalWrite srLatch HIGH ;;
  digitalWrite srLatch LOW.

(** Phrase::setFromMemory is the shared [setFromMemory]. *)

(** The two table indices of Phrase::setFromGrid. *)
Definition xIndex (x : Q) : Z := map_long (float_to_long x) (-1) 1 0 7.
Definition yIndex (y : Q) : Z := map_long (float_to_long y) (-1) 1 0 4.

(** Phrase::setFromGrid; declared [int], ends without a [return]. *)
Definition setFromGrid (x y : Q) : M Z :=
  modify_phrase (Phrase.set_length 1) ;;
  let xIndex := xIndex x in
  let yIndex := yIndex y in
  row <- array_read vowelGrid xIndex ;;
  code <- array_read row yIndex ;;
  name <- array_read validSymbols code ;;
  write_symbol 0 name ;;
  debugPrint ("Grid coords #xIndex , #yIndex = " ++ name)%string ;;
  sample indeterminate.

(** The body of the loop of Phrase::setFromRandom. *)
Definition setFromRandom_step (i : nat) : M unit :=
  seed <- analogRead rdm ;;
  randomSeed seed ;;
  index <- random 0 63 ;;
  name <- array_read validSymbols index ;;
  write_symbol (Z.of_nat i) name ;;
  r <- random 0 3 ;;
  write_inflection (Z.of_nat i) r.

(** Phrase::setFromRandom *)
Definition setFromRandom : M unit :=
  seed <- analogRead rdm ;;
  randomSeed seed ;;
  let minLen := 4 in
  let maxLen := 10 in
  n <- random minLen maxLen ;;
  modify_phrase (Phrase.set_length n) ;;
  len <- gets (fun o => Phrase.length (phrase o)) ;;
  for_upto len setFromRandom_step ;;
  debugPrint ("Generated new random phrase of length "
              ++ String_of_int len)%string.

(** The statements under the three labels of the switch of advListen;
    each yields the value it assigns to [advance]. *)
Definition case_auto : M bool :=
  debugPrint "Advance Mode: Auto Mode" ;;
  arUpdate.

Definition case_button : M bool :=
  debugPrint "Advance Mode: Button Mode" ;;
  r <- arUpdate ;;
  if r then sample button_Pressed else ret false.

Definition case_gate : M bool :=
  debugPrint "Advance Mode: Gate Mode" ;;
  r <- arUpdate ;;
  if r then sample gate_State else ret false.

(** advListen up to the end of its switch: the value of [advance].  No
    label ends in [break], so control runs on through the later labels and
    the last assignment stands.  With no matching label [advance] is never
    assigned. *)
Definition advListen_switch : M bool :=
  m <- gets advanceMode ;;
  a <- sample aSw1_Pressed ;;
  b <- sample aSw2_Pressed ;;
  updateMode m a b ;;
  m <- gets advanceMode ;;
  if m =? 1 then case_auto ;; case_button ;; case_gate
  else if m =? 2 then case_button ;; case_gate
  else if m =? 3 then case_gate
  else indeterminate_bool.

(** Grawlix::advListen: [advance] is a local that nothing changes once the
    switch is left, so the closing [while (!advance) {}] either falls
    through at once or never ends. *)
Definition advListen : M unit :=
  advance <- advListen_switch ;;
  debugPrint "Waiting to Advance..." ;;
  if advance then ret tt else spin.

(** The body of the loop of Grawlix::say. *)
Definition say_step (phrase : Phrase.t) (i : nat) : M unit :=
  m <- gets advanceMode ;;
  a <- sample aSw1_Pressed ;;
  b <- sample aSw2_Pressed ;;
  updateMode m a b ;;
  symbol <- array_read (Phrase.symbols phrase) (Z.of_nat i) ;;
  inflection <- array_read (Phrase.inflections phrase) (Z.of_nat i) ;;
  p <- Phoneme_new symbol inflection ;;
  debugPrint ("Inflection: "
              ++ String_of_int (Phoneme.inflectionIndex p))%string ;;
  shiftUpdate (Phoneme.payload p) ;;
  advListen ;;
  strobe.

(** Grawlix::say; the phrase is passed by value. *)
Definition say (phrase : Phrase.t) : M unit :=
  debugPrint "Synthesizing phonemes..." ;;
  for_upto (Phrase.length phrase) (say_step phrase).

(** The statements under the three labels of the switch of main. *)
Definition case_memory : M unit :=
  debugPrint "Phoneme Mode: Memory Mode" ;;
  setFromMemory.

Definition case_grid : M unit :=
  debugPrint "Phoneme Mode: Grid Mode" ;;
  x <- sample x_Process ;;
  y <- sample y_Process ;;
  setFromGrid x y ;;
  ret tt.

Definition case_random : M unit :=
  debugPrint "Phoneme Mode: Random Mode" ;;
  setFromRandom.

(** Grawlix::main up to the end of its switch.  No label ends in
    [break]. *)
Definition main_switch : M unit :=
  m <- gets phonemeMode ;;
  a <- sample pSw1_Pressed ;;
  b <- sample pSw2_Pressed ;;
  updateMode m a b ;;
  m <- gets phonemeMode ;;
  if m =? 1 then case_memory ;; case_grid ;; case_random
  else if m =? 2 then case_grid ;; case_random
  else if m =? 3 then case_random
  else ret tt.

(** [while (!button.Pressed()) {}], for at most [fuel] polls. *)
Fixpoint wait_button (fuel : nat) : M unit :=
  match fuel with
  | O => fun w => OutOfFuel w
  | S fuel' =>
      pressed <- sample button_Pressed ;;
      if pressed then ret tt else wait_button fuel'
  end.

(** Grawlix::main *)
Definition main (fuel : nat) : M unit :=
  main_switch ;;
  p <- gets phrase ;;
  say p ;;
  wait_button fuel.

(** *** class HardwarePWM of src/grawlix.ino: libDaisy timer and channel *)
Module HardwarePWM.

(** The members, and what the class last handed to the timer
    ([SetPrescaler], [SetPeriod]) and to the channel ([SetPwm]). *)
Record t : Type := mk {
  prescaler : Z;
  system_clock_rate : Z;
  system_tick_period : Z;
  default_period : Z;       (* Center freq of SC-01 *)
  timer_prescaler : Z;
  timer_period : Z;
  pwm_value : Z
}.

(** The default member initialisers, in declaration order; all members are
    [uint32_t], so [1/system_clock_rate] is an integer division.  There is
    no object when that division is by zero.  [pclk2] is what
    [System::GetPClk2Freq()] returns; [presc0], [period0] and [pwm0] are
    what timer and channel hold before the class touches them. *)
Definition construct (pclk2 presc0 period0 pwm0 : Z) : option t :=
  let prescaler := 1 in
  let system_clock_rate := u32 pclk2 / prescaler in
  if system_clock_rate =? 0 then None
  else
    let system_tick_period := 1 / system_clock_rate in
    let default_period := 556 in
    Some (mk prescaler system_clock_rate system_tick_period default_period
             presc0 period0 pwm0).

Definition set_timer (presc period pwm : Z) (s : t) : t :=
  mk (prescaler s) (system_clock_rate s) (system_tick_period s)
     (default_period s) presc period pwm.

(** Init: prescaler [prescaler - 1], period [default_period], compare value
    [default_period/2]. *)
Definition Init (s : t) : t :=
  set_timer (u32 (prescaler s - 1)) (default_period s) (default_period s / 2) s.

(** setFreq(uint32_t target_freq_hz, uint32_t duty_cycle): two integer
    divisions, either of which can be by zero; [duty_cycle] is not used. *)
Definition setFreq (target_freq_hz duty_cycle : Z) (s : t) : option t :=
  let target_freq_hz := u32 target_freq_hz in
  if target_freq_hz =? 0 then None
  else
    let target_freq_period := 1 / target_freq_hz in
    if system_tick_period s =? 0 then None
    else
      let target_freq_ticks := target_freq_period / system_tick_period s in
      Some (set_timer (timer_prescaler s) target_freq_ticks
                      (target_freq_ticks / 2) s).

End HardwarePWM.

(** *** setup: the pin configuration block *)
Inductive PinModeT : Type := INPUT | OUTPUT.

(** [int outPins[6] = { vStb, vClk, srData, srLatch, srClk }]: five
    initialisers for six elements, the last is zero. *)
Definition outPins : list Z :=
  [ pin_number vStb; pin_number vClk; pin_number srData;
    pin_number srLatch; pin_number srClk; 0 ].

(** The calls of [pinMode] that setup makes, in order: one for the
    acknowledge pin, then [pinMode(i, OUTPUT)] for the loop counter [i]
    itself. *)
Definition setup_pinModes : list (Z * PinModeT) :=
  (pin_number vAr, INPUT)
  :: map (fun i : nat => (Z.of_nat i, OUTPUT)) (seq 0 (length outPins)).

End Ino.

(** ** src/unnamed/part_000 *)
Module PatchSM.

(** Votrax::shiftUpdate *)
Definition shiftUpdate (data : Z) : M unit :=
  shiftOut_MSBFIRST srData srClk data ;;
  digitalWrite srLatch HIGH ;;
  digitalWrite srLatch LOW ;;
  debugPrint "Shift register loaded, ready to strobe.".

(** The upper input bound written [10^16-1]: in C++ [^] is exclusive or
    and binds less tightly than [-]. *)
Definition in_max : Z := Z.lxor 10 (16 - 1).

(** The two table indices of Phrase::setFromGrid. *)
Definition xIndex (x : Q) : Z := map_long (float_to_long x) 0 in_max 0 7.
Definition yIndex (y : Q) : Z := map_long (float_to_long y) 0 in_max 0 4.

(** Phrase::setFromGrid; declared [int], ends without a [return]. *)
Definition setFromGrid (x y : Q) : M Z :=
  modify_phrase (Phrase.set_length 1) ;;
  let xIndex := xIndex x in
  let yIndex := yIndex y in
  row <- array_read vowelGrid xIndex ;;
  code <- array_read row yIndex ;;
  name <- array_read validSymbols code ;;
  write_symbol 0 name ;;
  debugPrint ("Grid coords " ++ String_of_int xIndex ++ ", "
              ++ String_of_int yIndex ++ " = " ++ name)%string ;;
  sample indeterminate.

(** The body of the loop of Phrase::setFromRandom. *)
Definition setFromRandom_step (i : nat) : M unit :=
  seed <- sample rdm_Value ;;
  randomSeed (float_to_long seed) ;;
  index <- random 0 63 ;;
  name <- array_read validSymbols index ;;
  write_symbol (Z.of_nat i) name ;;
  r <- random 0 3 ;;
  write_inflection (Z.of_nat i) r.

(** Phrase::setFromRandom *)
Definition setFromRandom : M unit :=
  seed <- sample rdm_Value ;;
  randomSeed (float_to_long seed) ;;
  let minLen := 4 in
  let maxLen := 10 in
  n <- random minLen maxLen ;;
  modify_phrase (Phrase.set_length n) ;;
  len <- gets (fun o => Phrase.length (phrase o)) ;;
  for_upto len setFromRandom_step ;;
  debugPrint ("Generated new random phrase of length "
              ++ String_of_int len)%string.

(** The statements under the three labels of the switch of advListen. *)
Definition case_auto : M bool :=
  debugPrint "Advance Mode: Auto Mode" ;;
  arUpdate.

Definition case_button : M bool :=
  debugPrint "Advance Mode: Button Mode" ;;
  r <- arUpdate ;;
  if r then sample button1_Pressed else ret false.

Definition case_gate : M bool :=
  debugPrint "Advance Mode: Gate Mode" ;;
  r <- arUpdate ;;
  if r then sample gate_State else ret false.

(** advListen up to the end of its switch: the value of [advance].  Every
    label ends in [break]. *)
Definition advListen_switch : M bool :=
  m <- gets advanceMode ;;
  a <- sample aSw1_Pressed ;;
  b <- sample aSw2_Pressed ;;
  updateMode m a b ;;
  m <- gets advanceMode ;;
  if m =? 1 then case_auto
  else if m =? 2 then case_button
  else if m =? 3 then case_gate
  else indeterminate_bool.

(** Grawlix::advListen *)
Definition advListen : M unit :=
  advance <- advListen_switch ;;
  debugPrint "Waiting to Advance..." ;;
  if advance then ret tt else spin.

(** The body of the loop of Grawlix::say. *)
Definition say_step (phrase : Phrase.t) (i : nat) : M unit :=
  m <- gets advanceMode ;;
  a <- sample aSw1_Pressed ;;
  b <- sample aSw2_Pressed ;;
  updateMode m a b ;;
  symbol <- array_read (Phrase.symbols phrase) (Z.of_nat i) ;;
  inflection <- array_read (Phrase.inflections phrase) (Z.of_nat i) ;;
  p <- Phoneme_new symbol inflection ;;
  debugPrint ("Inflection: "
              ++ String_of_int (Phoneme.inflectionIndex p))%string ;;
  shiftUpdate (Phoneme.payload p) ;;
  advListen ;;
  strobe.

(** Grawlix::say *)
Definition say (phrase : Phrase.t) : M unit :=
  debugPrint "Synthesizing phonemes..." ;;
  for_upto (Phrase.length phrase) (say_step phrase).

(** The statements under the three labels of the switch of main. *)
Definition case_memory : M unit :=
  debugPrint "Phoneme Mode: Memory Mode" ;;
  setFromMemory.

Definition case_grid : M unit :=
  debugPrint "Phoneme Mode: Grid Mode" ;;
  x <- sample x_Value ;;
  y <- sample y_Value ;;
  setFromGrid x y ;;
  ret tt.

Definition case_random : M unit :=
  debugPrint "Phoneme Mode: Random Mode" ;;
  setFromRandom.

(** Grawlix::main up to the end of its switch.  Every label ends in
    [break]. *)
Definition main_switch : M unit :=
  m <- gets phonemeMode ;;
  a <- sample pSw1_Pressed ;;
  b <- sample pSw2_Pressed ;;
  updateMode m a b ;;
  m <- gets phonemeMode ;;
  if m =? 1 then case_memory
  else if m =? 2 then case_grid
  else if m =? 3 then case_random
  else ret tt.

(** [while (!button1.Pressed()) {}], for at most [fuel] polls. *)
Fixpoint wait_button (fuel : nat) : M unit :=
  match fuel with
  | O => fun w => OutOfFuel w
  | S fuel' =>
      pressed <- sample button1_Pressed ;;
      if pressed then ret tt else wait_button fuel'
  end.

(** Grawlix::main *)
Definition main (fuel : nat) : M unit :=
  main_switch ;;
  p <- gets phrase ;;
  say p ;;
  wait_button fuel.

(** *** class HardwarePWM: TIM3, channel 1 *)
Module HardwarePWM.

(** The members that are initialised, and the two timer registers the
    class writes.  ([freq_knob] and [voct_multiplier] are declared and
    never used.) *)
Record t : Type := mk {
  kHz : Z;
  MHz : Z;
  prescaler : Z;
  system_clock_rate : Z;
  default_freq : Z;
  default_counter_period : Z;
  default_pw : Z;
  default_pw_period : Z;
  target_freq : Z;
  target_pw : Z;
  ARR : Z;     (* htim3.Instance->ARR, the period *)
  CCR1 : Z     (* htim3.Instance->CCR1, the duty-cycle compare value *)
}.

(** Initialisation of a [uint32_t] from a [float] constant. *)
Definition float_to_u32 (q : Q) : Z := u32 (float_to_long q).

(** The default member initialisers, in declaration order.  [pclk2] is
    what [System::GetPClk2Freq()] returns; [arr0] and [ccr0] are what the
    two registers hold before the class touches them. *)
Definition construct (pclk2 arr0 ccr0 : Z) : t :=
  let kHz := u32 (Z.lxor 10 3) in
  let MHz := u32 (Z.lxor 10 6) in
  let prescaler := 0 in
  let system_clock_rate := u32 pclk2 in
  let default_freq := u32 (720 * kHz) in
  let default_counter_period :=
    u32 (system_clock_rate / default_freq - 1) in
  let default_pw := float_to_u32 (1 # 2) in
  let default_pw_period := u32 (default_counter_period * default_pw) in
  let target_freq := default_freq in
  let target_pw := float_to_u32 (1 # 2) in
  mk kHz MHz prescaler system_clock_rate default_freq
     default_counter_period default_pw default_pw_period
     target_freq target_pw (u32 arr0) (u32 ccr0).

Definition set_registers (arr ccr : Z) (s : t) : t :=
  mk (kHz s) (MHz s) (prescaler s) (system_clock_rate s) (default_freq s)
     (default_counter_period s) (default_pw s) (default_pw_period s)
     (target_freq s) (target_pw s) arr ccr.

Definition set_target_freq (f : Z) (s : t) : t :=
  mk (kHz s) (MHz s) (prescaler s) (system_clock_rate s) (default_freq s)
     (default_counter_period s) (default_pw s) (default_pw_period s)
     f (target_pw s) (ARR s) (CCR1 s).

Definition set_target_pw (pw : Z) (s : t) : t :=
  mk (kHz s) (MHz s) (prescaler s) (system_clock_rate s) (default_freq s)
     (default_counter_period s) (default_pw s) (default_pw_period s)
     (target_freq s) pw (ARR s) (CCR1 s).

(** Init, on the path where every HAL call answers HAL_OK: the time base
    is set up with [Period = default_counter_period] and channel 1 with
    [Pulse = default_pw_period]; the HAL stores them in ARR and CCR1. *)
Definition Init (s : t) : t :=
  set_registers (default_counter_period s) (default_pw_period s) s.

(** freqToTicks(uint32_t freq); there is no result when [freq] is zero. *)
Definition freqToTicks (s : t) (freq : Z) : option Z :=
  let freq := u32 freq in
  if freq =? 0 then None
  else Some (u32 (system_clock_rate s / freq - 1)).

Definition multipliers : list Q :=
  [ 0.500; 0.530; 0.561; 0.595; 0.630; 0.667;
    0.707; 0.749; 0.794; 0.841; 0.891; 0.944;
    1.000; 1.059; 1.122; 1.189; 1.260; 1.335;
    1.414; 1.498; 1.587; 1.682; 1.782; 1.888;
    2.000; 2.119; 2.245; 2.378; 2.520; 2.669;
    2.828; 2.996; 3.175; 3.363; 3.563; 3.775;
    4.000 ]%Q.

(** The locals [knob] and [voct_mult] of setFreq.  [knob] is a [map] on
    [long]; [voct_mult] is read from the table of 37 entries at the index
    that [map] gives, and there is no value when that index leaves the
    table. *)
Definition setFreq_knob (freq_knob : Z) : Z :=
  map_long freq_knob 0 PatchSM.in_max (float_to_long (1 # 2)) 2.

Definition setFreq_voct_index (voct_val : Z) : Z :=
  map_long voct_val 0 PatchSM.in_max 0 37.

Definition setFreq_voct_mult (voct_val : Z) : option Q :=
  lookupZ multipliers (setFreq_voct_index voct_val).

(** setFreq(uint16_t freq_knob, uint16_t voct_val).  The arguments are cut
    to 16 bits on entry.  The body computes [knob], reads [voct_mult] from
    the table, and then computes the frequency from the two parameters
    themselves.  There is no result when the table read leaves the table or
    when the tick count divides by a zero frequency. *)
Definition setFreq (freq_knob voct_val : Z) (s : t) : option t :=
  let freq_knob := u16 freq_knob in
  let voct_val := u16 voct_val in
  let knob := setFreq_knob freq_knob in
  match setFreq_voct_mult voct_val with
  | None => None
  | Some voct_mult =>
      let target_freq :=
        u32 (u32 (u32 (720 * MHz s) * freq_knob) * voct_val) in
      let s := set_target_freq target_freq s in
      match freqToTicks s (HardwarePWM.target_freq s) with
      | None => None
      | Some target_ticks =>
          let updated_pw_period := u32 (target_ticks * target_pw s) in
          Some (set_registers target_ticks updated_pw_period s)
      end
  end.

(** setPulseWidth(uint32_t pw); the argument is cut to 32 bits on entry. *)
Definition setPulseWidth (pw : Z) (s : t) : option t :=
  let pw := u32 pw in
  let s := set_target_pw pw s in
  match freqToTicks s (target_freq s) with
  | None => None
  | Some ticks =>
      let target_pw_period := u32 (ticks * target_pw s - 1) in
      Some (set_registers (ARR s) target_pw_period s)
  end.

(** The operations of the class, and a run of them on an object that
    has been constructed and initialised. *)
Inductive Op : Type :=
| OpSetFreq (freq_knob voct_val : Z)
| OpSetPulseWidth (pw : Z).

Definition apply_op (o : Op) (s : t) : option t :=
  match o with
  | OpSetFreq k v => setFreq k v s
  | OpSetPulseWidth pw => setPulseWidth pw s
  end.

Fixpoint run (ops : list Op) (s : t) : option t :=
  match ops with
  | [] => Some s
  | o :: ops' =>
      match apply_op o s with
      | Some s' => run ops' s'
      | None => None
      end
  end.

Definition is_setFreq (o : Op) : bool :=
  match o with OpSetFreq _ _ => true | OpSetPulseWidth _ => false end.

(** The arguments with which setFreq has a result: as 16-bit values, a
    frequency knob that is not zero and a pitch value from 1 to 4. *)
Definition setFreq_completes (freq_knob voct_val : Z) : Prop :=
  u16 freq_knob <> 0 /\ 1 <= u16 voct_val <= 4.

Definition op_completes (o : Op) : Prop :=
  match o with
  | OpSetFreq k v => setFreq_completes k v
  | OpSetPulseWidth _ => True
  end.

End HardwarePWM.

(** setup: [sc01Clock.Init(); sc01Clock.setFreq(freq.Value(), voct.Value());].
    The two control values are [float]s; each is converted to the
    [uint16_t] parameter it is passed for. *)
Definition setup_clock (pclk2 arr0 ccr0 : Z) (freq voct : Q)
    : option HardwarePWM.t :=
  HardwarePWM.setFreq (float_to_long freq) (float_to_long voct)
    (HardwarePWM.Init (HardwarePWM.construct pclk2 arr0 ccr0)).

End PatchSM.

(** ** The advance gate as the specification words it *)
Definition mayAdvance (mode : Z) (ack buttonPressed gateHigh : bool) : bool :=
  if mode =? 1 then ack
  else if mode =? 2 then ack && buttonPressed
  else if mode =? 3 then ack && gateHigh
  else false.

(** ** A bench: constant inputs and a small generator *)

(** A linear congruential generator standing in for the C library's. *)
Definition lcg (s : Z) : N * Z :=
  let s' := (s * 1103515245 + 12345) mod 2 ^ 31 in (Z.to_N s', s').

Record Bench : Type := mkBench {
  b_pSw1 : bool; b_pSw2 : bool;
  b_aSw1 : bool; b_aSw2 : bool;
  b_button : bool;
  b_gate : bool;
  b_ack : bool;
  b_x : Q; b_y : Q;
  b_noise : Z;
  b_indeterminate : Z
}.

Definition bench_platform (b : Bench) : Platform :=
  {| pSw1_Pressed := fun _ => b_pSw1 b;
     pSw2_Pressed := fun _ => b_pSw2 b;
     aSw1_Pressed := fun _ => b_aSw1 b;
     aSw2_Pressed := fun _ => b_aSw2 b;
     button_Pressed := fun _ => b_button b;
     button1_Pressed := fun _ => b_button b;
     gate_State := fun _ => b_gate b;
     x_Process := fun _ => b_x b;
     y_Process := fun _ => b_y b;
     x_Value := fun _ => b_x b;
     y_Value := fun _ => b_y b;
     rdm_Value := fun _ => inject_Z (b_noise b);
     analogRead_pin := fun _ _ => b_noise b;
     digitalRead_pin := fun _ _ => b_ack b;
     srandom := fun seed => seed;
     random_raw := lcg;
     indeterminate := fun _ => b_indeterminate b |}.

(** Switches released, button and gate idle, acknowledge high, controls
    centred. *)
Definition bench_idle : Bench :=
  mkBench false false false false false false true 0 0 7 1.

Definition bench_world (b : Bench) (dbg : bool) (o : Grawlix) : World :=
  mkWorld (bench_platform b) dbg o 0 1 [] [].

Definition set_phonemeMode (m : Z) (o : Grawlix) : Grawlix :=
  mkGrawlix m (advanceMode o) (memoryIndex o) (phrase o) (sc01 o).

Definition set_advanceMode (m : Z) (o : Grawlix) : Grawlix :=
  mkGrawlix (phonemeMode o) m (memoryIndex o) (phrase o) (sc01 o).

(** The world an outcome ends in. *)
Definition outcome_world {A : Type} (o : Outcome A) : World :=
  match o with
  | Done _ w | Spin w | Fault w | OutOfFuel w => w
  end.

(** [m] keeps the relation [P] between the world it starts in and the world
    it ends in, however it ends. *)
Definition preserves {A : Type} (P : World -> World -> Prop) (m : M A) : Prop :=
  forall w, P w (outcome_world (m w)).

(** What can be observed of a run that returns. *)
Definition final {A B : Type} (o : Outcome A) (f : World -> B) : option B :=
  match o with
  | Done _ w => Some (f w)
  | _ => None
  end.

(** The arrays of a phrase have their declared size. *)
Definition arrays_ok (p : Phrase.t) : Prop :=
  length (Phrase.symbols p) = 32%nat /\
  length (Phrase.inflections p) = 32%nat.

(** Entry [i] of the phrase holds the name of a symbol of index at most
    [kmax] and an inflection of at most [vmax]. *)
Definition entry_within (kmax vmax : Z) (p : Phrase.t) (i : nat) : Prop :=
  exists k name v,
    0 <= k <= kmax /\
    validSymbols !! Z.to_nat k = Some name /\
    Phrase.symbols p !! i = Some name /\
    Phrase.inflections p !! i = Some v /\
    0 <= v <= vmax.

(** The symbol name the two tables give for a pair of grid indices, when
    both indices are inside [vowelGrid]. *)
Definition grid_symbol (xIndex yIndex : Z) : option string :=
  match lookupZ vowelGrid xIndex with
  | Some row =>
      match lookupZ row yIndex with
      | Some code => lookupZ validSymbols code
      | None => None
      end
  | None => None
  end.

Definition is_Fault {A : Type} (o : Outcome A) : bool :=
  match o with Fault _ => true | _ => false end.


Definition is_Spin {A : Type} (o : Outcome A) : bool :=
  match o with Spin _ => true | _ => false end.

(** A phrase as a Random cycle can leave it: first inflection 2. *)
Definition phrase_after_random : Phrase.t :=
  Phrase.mk (<[0%nat := "IU"%string]> (replicate 32 ""%string))
            (<[0%nat := 2]> (replicate 32 0)) 4.

(** The value a run returns, when it returns. *)
Definition result {A : Type} (o : Outcome A) : option A :=
  match o with
  | Done a _ => Some a
  | _ => None
  end.

(** Two pin sequences for the transmission of one payload byte.
    [claimed_order] is the order of the specification: load, strobe, then
    the polls of the acknowledge line.  [coded_order] has the polls between
    the load and the strobe. *)
Definition load_events (payload : Z) : list Event :=
  shiftOut_events srData srClk payload
  ++ [ DigitalWrite srLatch HIGH; DigitalWrite srLatch LOW ].







(** Board and sketch object are as before. *)
Definition same_board (w w' : World) : Prop :=
  hw w' = hw w /\ g w' = g w /\ debug w' = debug w.

(** Gate high and an unspecified value that reads as true: advListen lets
    the sequencer through. *)
Definition bench_open : Bench :=
  mkBench false false false false false true true 0 0 7 1.

(** What two worlds can share. *)
Definition same_modes (w w' : World) : Prop :=
  phonemeMode (g w') = phonemeMode (g w) /\
  advanceMode (g w') = advanceMode (g w) /\
  memoryIndex (g w') = memoryIndex (g w).
Definition same_pins (w w' : World) : Prop := pins w' = pins w.
(** ** What the chip side sees of a pin trace *)

Definition Pin_eqb (p q : Pin) : bool := pin_number p =? pin_number q.

(** The levels written to [dataPin], in the order written. *)
Definition data_levels (dataPin : Pin) (evs : list Event) : list bool :=
  flat_map (fun e =>
              match e with
              | DigitalWrite p level => if Pin_eqb p dataPin then [level] else []
              | _ => []
              end) evs.

(** The number held by a run of bits, the first bit the most significant. *)
Definition byte_of_levels (bits : list bool) : Z :=
  fold_left (fun (acc : Z) (b : bool) => 2 * acc + Z.b2z b) bits 0.

(** How often [pin] is written high. *)
Definition high_writes (pin : Pin) (evs : list Event) : nat :=
  length (List.filter
            (fun e =>
               match e with
               | DigitalWrite p level => Pin_eqb p pin && level
               | _ => false
               end) evs).

(** The debug flag is as before, and with the flag off nothing was
    printed. *)
Definition quiet (w w' : World) : Prop :=
  debug w' = debug w /\ (debug w = false -> serial w' = serial w).

(** The world after [k] further samples, nothing else changed. *)
Definition after_samples (k : nat) (w : World) : World :=
  mkWorld (hw w) (debug w) (g w) (now w + k)%nat (rng w) (pins w) (serial w).

(** Boolean comparisons in hypotheses, turned into what [lia] reads. *)
Ltac zbool :=
  repeat match goal with
  | H : (_ >=? _) = _ |- _ => rewrite Z.geb_leb in H
  | H : (_ <? _) = true |- _ => apply Z.ltb_lt in H
  | H : (_ <? _) = false |- _ => apply Z.ltb_ge in H
  | H : (_ <=? _) = true |- _ => apply Z.leb_le in H
  | H : (_ <=? _) = false |- _ => apply Z.leb_gt in H
  | H : (_ =? _) = true |- _ => apply Z.eqb_eq in H
  | H : (_ =? _) = false |- _ => apply Z.eqb_neq in H
  end.

(** ** Properties of the codec *)

Lemma fold_left_overwrite {A B : Type} (f : B -> A) (l : list B) (x : B) (a : A) :
  fold_left (fun (_ : A) (b : B) => f b) (l ++ [x]) a = f x.
Proof. rewrite fold_left_app. reflexivity. Qed.

(** Only the last round of the constructor's loop counts. *)
Lemma symbol_loop_last (symbol : string) (inflection init : Z) :
  Phoneme.symbol_loop symbol inflection init =
  if inflection =? charAt symbol 63 then 63 else 3.
Proof.
  unfold Phoneme.symbol_loop.
  change (seq 0 64) with (seq 0 63 ++ [63%nat]).
  rewrite (fold_left_overwrite
             (fun i : nat => if inflection =? charAt symbol (Z.of_nat i)
                             then Z.of_nat i else 3)).
  reflexivity.
Qed.

(** The inflection half of the payload is as specified. *)
Lemma ctor_inflectionIndex (symbol : string) (inflection : Z) :
  Phoneme.inflectionIndex (Phoneme.ctor symbol inflection) =
  if (inflection >=? 0) && (inflection <=? 3) then inflection else 0.
Proof. reflexivity. Qed.

Lemma ctor_inflection_range (symbol : string) (inflection : Z) :
  0 <= Phoneme.inflectionIndex (Phoneme.ctor symbol inflection) <= 3.
Proof.
  rewrite ctor_inflectionIndex.
  destruct (inflection >=? 0) eqn:H0, (inflection <=? 3) eqn:H3; simpl; lia.
Qed.

(** The symbol index is 63 or 3, whatever the symbol name. *)
Lemma ctor_symbolIndex (symbol : string) (inflection : Z) :
  Phoneme.symbolIndex (Phoneme.ctor symbol inflection) =
  if inflection =? charAt symbol 63 then 63 else 3.
Proof. unfold Phoneme.ctor; simpl. apply symbol_loop_last. Qed.

(** C1 (code evaluated at the failing input).  For the symbol EH3, whose
    canonical index is 0, and inflection 1, the constructor yields symbol
    index 3 and payload 67, where the specified encoding is
    (1 << 6) | 0 = 64. *)
Theorem Phoneme_EH3_payload :
  Phoneme.symbolIndex (Phoneme.ctor "EH3" 1) = 3 /\
  Phoneme.payload (Phoneme.ctor "EH3" 1) = 67 /\
  index_of "EH3" validSymbols 0 = Some 0 /\
  encode_spec "EH3" 1 = 64.
Proof. repeat split; reflexivity. Qed.

(** ** Reasoning about the outcome monad *)


Lemma bind_Done_intro {A B : Type} (m : M A) (k : A -> M B) (w w1 : World) (a : A) :
  m w = Done a w1 -> bind m k w = k a w1.
Proof. intros H. unfold bind. rewrite H. reflexivity. Qed.

Section Preserves.

Variable P : World -> World -> Prop.
Hypothesis P_refl : forall w, P w w.
Hypothesis P_trans : forall w1 w2 w3, P w1 w2 -> P w2 w3 -> P w1 w3.

Lemma preserves_ret {A : Type} (a : A) : preserves P (ret a).
Proof. intros w. apply P_refl. Qed.

Lemma preserves_spin {A : Type} : preserves P (@spin A).
Proof. intros w. apply P_refl. Qed.

Lemma preserves_fault {A : Type} : preserves P (@fault A).
Proof. intros w. apply P_refl. Qed.

Lemma preserves_gets {A : Type} (f : Grawlix -> A) : preserves P (gets f).
Proof. intros w. apply P_refl. Qed.

Lemma preserves_bind {A B : Type} (m : M A) (k : A -> M B) :
  preserves P m -> (forall a, preserves P (k a)) -> preserves P (bind m k).
Proof.
  intros Hm Hk w. unfold bind. specialize (Hm w).
  destruct (m w) as [a w1 | w1 | w1 | w1]; simpl in *; try exact Hm.
  eapply P_trans; [exact Hm | apply Hk].
Qed.

Lemma preserves_if {A : Type} (c : bool) (m1 m2 : M A) :
  preserves P m1 -> preserves P m2 -> preserves P (if c then m1 else m2).
Proof. destruct c; auto. Qed.

Lemma preserves_for_each (l : list nat) (body : nat -> M unit) :
  (forall i, preserves P (body i)) -> preserves P (for_each l body).
Proof.
  intros Hb. induction l as [| i l IH]; simpl.
  - apply preserves_ret.
  - apply preserves_bind; auto.
Qed.

Lemma preserves_array_read {A : Type} (l : list A) (i : Z) :
  preserves P (array_read l i).
Proof.
  unfold array_read. destruct (lookupZ l i);
    [apply preserves_ret | apply preserves_fault].
Qed.

Lemma preserves_array_write {A : Type} (l : list A) (i : Z) (v : A) :
  preserves P (array_write l i v).
Proof.
  unfold array_write. destruct (lookupZ l i);
    [apply preserves_ret | apply preserves_fault].
Qed.

Lemma preserves_Done {A : Type} (m : M A) (w w' : World) (a : A) :
  preserves P m -> m w = Done a w' -> P w w'.
Proof. intros Hm H. specialize (Hm w). rewrite H in Hm. exact Hm. Qed.

End Preserves.

(** No primitive writes a mode member of the sketch object. *)
Lemma same_modes_refl (w : World) : same_modes w w.
Proof. repeat split; reflexivity. Qed.

Lemma same_modes_trans (w1 w2 w3 : World) :
  same_modes w1 w2 -> same_modes w2 w3 -> same_modes w1 w3.
Proof. unfold same_modes. intuition congruence. Qed.

Lemma same_pins_refl (w : World) : same_pins w w.
Proof. reflexivity. Qed.

Lemma same_pins_trans (w1 w2 w3 : World) :
  same_pins w1 w2 -> same_pins w2 w3 -> same_pins w1 w3.
Proof. unfold same_pins. congruence. Qed.

Lemma debugPrint_Done (message : string) (w : World) :
  exists w', debugPrint message w = Done tt w' /\
             hw w' = hw w /\ debug w' = debug w /\ g w' = g w /\
             now w' = now w /\ rng w' = rng w /\ pins w' = pins w.
Proof.
  unfold debugPrint. destruct (debug w) eqn:E; eexists;
    (split; [reflexivity |]); simpl; rewrite ?E; auto 10.
Qed.

Lemma debugPrint_modes (message : string) :
  preserves same_modes (debugPrint message).
Proof.
  intros w.
  destruct (debugPrint_Done message w) as (w' & -> & _ & _ & H & _). simpl.
  unfold same_modes. rewrite H. repeat split; reflexivity.
Qed.

Lemma debugPrint_pins (message : string) :
  preserves same_pins (debugPrint message).
Proof.
  intros w. destruct (debugPrint_Done message w) as (w' & -> & H). simpl.
  unfold same_pins. tauto.
Qed.

Lemma sample_modes {A : Type} (f : Platform -> nat -> A) :
  preserves same_modes (sample f).
Proof. intros w. repeat split; reflexivity. Qed.

Lemma sample_pins {A : Type} (f : Platform -> nat -> A) :
  preserves same_pins (sample f).
Proof. intros w. reflexivity. Qed.

Lemma emit_modes (e : Event) : preserves same_modes (emit e).
Proof. intros w. repeat split; reflexivity. Qed.

Lemma modify_phrase_modes (f : Phrase.t -> Phrase.t) :
  preserves same_modes (modify_phrase f).
Proof. intros w. repeat split; reflexivity. Qed.

Lemma randomSeed_modes (seed : Z) : preserves same_modes (randomSeed seed).
Proof.
  intros w. unfold randomSeed.
  destruct (u32 seed =? 0); repeat split; reflexivity.
Qed.

Lemma randomSeed_pins (seed : Z) : preserves same_pins (randomSeed seed).
Proof. intros w. unfold randomSeed. destruct (u32 seed =? 0); reflexivity. Qed.

Lemma draw_modes : preserves same_modes draw.
Proof.
  intros w. unfold draw. destruct (random_raw (hw w) (rng w)).
  repeat split; reflexivity.
Qed.

Lemma draw_pins : preserves same_pins draw.
Proof. intros w. unfold draw. destruct (random_raw (hw w) (rng w)). reflexivity. Qed.

Lemma modify_phrase_pins (f : Phrase.t -> Phrase.t) :
  preserves same_pins (modify_phrase f).
Proof. intros w. reflexivity. Qed.

Lemma modes_bind {A B : Type} (m : M A) (k : A -> M B) :
  preserves same_modes m -> (forall a, preserves same_modes (k a)) ->
  preserves same_modes (bind m k).
Proof. apply preserves_bind, same_modes_trans. Qed.

Lemma pins_bind {A B : Type} (m : M A) (k : A -> M B) :
  preserves same_pins m -> (forall a, preserves same_pins (k a)) ->
  preserves same_pins (bind m k).
Proof. apply preserves_bind, same_pins_trans. Qed.

(** Frame goals are closed by walking down the program text. *)
Lemma emit_all_modes (l : list Event) : preserves same_modes (emit_all l).
Proof.
  induction l as [| e l IH]; simpl.
  - apply (preserves_ret same_modes same_modes_refl).
  - apply modes_bind; [apply emit_modes | intros ?; exact IH].
Qed.

Ltac modes_step :=
  lazymatch goal with
  | |- preserves _ (bind _ _) => apply modes_bind; [| intros ?]
  | |- preserves _ (if _ then _ else _) => apply (preserves_if same_modes)
  | |- preserves _ (for_each _ _) =>
      apply (preserves_for_each same_modes same_modes_refl same_modes_trans);
      intros ?
  | |- preserves _ (emit_all _) => apply emit_all_modes
  | |- preserves _ (debugPrint _) => apply debugPrint_modes
  | |- preserves _ (sample _) => apply sample_modes
  | |- preserves _ (emit _) => apply emit_modes
  | |- preserves _ (modify_phrase _) => apply modify_phrase_modes
  | |- preserves _ (randomSeed _) => apply randomSeed_modes
  | |- preserves _ draw => apply draw_modes
  | |- preserves _ (ret _) => apply (preserves_ret same_modes same_modes_refl)
  | |- preserves _ spin => apply (preserves_spin same_modes same_modes_refl)
  | |- preserves _ fault => apply (preserves_fault same_modes same_modes_refl)
  | |- preserves _ (gets _) =>
      apply (preserves_gets same_modes same_modes_refl)
  | |- preserves _ (array_read _ _) =>
      apply (preserves_array_read same_modes same_modes_refl)
  | |- preserves _ (array_write _ _ _) =>
      apply (preserves_array_write same_modes same_modes_refl)
  end.

Ltac modes_frame := repeat modes_step.

Ltac pins_step :=
  lazymatch goal with
  | |- preserves _ (bind _ _) => apply pins_bind; [| intros ?]
  | |- preserves _ (if _ then _ else _) => apply (preserves_if same_pins)
  | |- preserves _ (debugPrint _) => apply debugPrint_pins
  | |- preserves _ (sample _) => apply sample_pins
  | |- preserves _ (modify_phrase _) => apply modify_phrase_pins
  | |- preserves _ (randomSeed _) => apply randomSeed_pins
  | |- preserves _ draw => apply draw_pins
  | |- preserves _ (ret _) => apply (preserves_ret same_pins same_pins_refl)
  | |- preserves _ spin => apply (preserves_spin same_pins same_pins_refl)
  | |- preserves _ fault => apply (preserves_fault same_pins same_pins_refl)
  | |- preserves _ (gets _) => apply (preserves_gets same_pins same_pins_refl)
  | |- preserves _ (array_read _ _) =>
      apply (preserves_array_read same_pins same_pins_refl)
  | |- preserves _ (array_write _ _ _) =>
      apply (preserves_array_write same_pins same_pins_refl)
  end.

Ltac pins_frame := repeat pins_step.

Lemma updateMode_modes (mode : Z) (a b : bool) :
  preserves same_modes (updateMode mode a b).
Proof. unfold updateMode. modes_frame. Qed.


Lemma write_symbol_pins (i : Z) (name : string) :
  preserves same_pins (write_symbol i name).
Proof. unfold write_symbol. pins_frame. Qed.

Lemma Ino_wait_button_modes (fuel : nat) :
  preserves same_modes (Ino.wait_button fuel).
Proof.
  induction fuel as [| fuel IH]; simpl.
  - intros w. apply same_modes_refl.
  - apply modes_bind; [apply sample_modes |].
    intros []; [apply (preserves_ret same_modes same_modes_refl) | exact IH].
Qed.

Lemma PatchSM_wait_button_modes (fuel : nat) :
  preserves same_modes (PatchSM.wait_button fuel).
Proof.
  induction fuel as [| fuel IH]; simpl.
  - intros w. apply same_modes_refl.
  - apply modes_bind; [apply sample_modes |].
    intros []; [apply (preserves_ret same_modes same_modes_refl) | exact IH].
Qed.

(** No run of main, in either revision and however it ends, changes
    [phonemeMode], [advanceMode] or [memoryIndex]: the sketch never assigns
    them. *)
Lemma Ino_main_modes (fuel : nat) : preserves same_modes (Ino.main fuel).
Proof.
  unfold Ino.main. apply modes_bind; [| intros ?]; [| apply modes_bind].
  - unfold Ino.main_switch, Ino.case_memory, Ino.case_grid, Ino.case_random,
      setFromMemory, Ino.setFromGrid, Ino.setFromRandom, for_upto,
      Ino.setFromRandom_step, write_symbol, write_inflection, updateMode,
      analogRead, random.
    modes_frame.
  - apply (preserves_gets same_modes same_modes_refl).
  - intros p. apply modes_bind; [| intros ?; apply Ino_wait_button_modes].
    unfold Ino.say, for_upto, Ino.say_step, Ino.shiftUpdate,
      shiftOut_MSBFIRST, Ino.advListen, Ino.advListen_switch, Ino.case_auto,
      Ino.case_button, Ino.case_gate, arUpdate, strobe, Phoneme_new,
      indeterminate_bool, digitalRead, digitalWrite, delay, updateMode.
    modes_frame.
Qed.

Lemma PatchSM_main_modes (fuel : nat) :
  preserves same_modes (PatchSM.main fuel).
Proof.
  unfold PatchSM.main. apply modes_bind; [| intros ?]; [| apply modes_bind].
  - unfold PatchSM.main_switch, PatchSM.case_memory, PatchSM.case_grid,
      PatchSM.case_random, setFromMemory, PatchSM.setFromGrid,
      PatchSM.setFromRandom, for_upto, PatchSM.setFromRandom_step,
      write_symbol, write_inflection, updateMode, analogRead, random.
    modes_frame.
  - apply (preserves_gets same_modes same_modes_refl).
  - intros p. apply modes_bind; [| intros ?; apply PatchSM_wait_button_modes].
    unfold PatchSM.say, for_upto, PatchSM.say_step, PatchSM.shiftUpdate,
      shiftOut_MSBFIRST, PatchSM.advListen, PatchSM.advListen_switch,
      PatchSM.case_auto, PatchSM.case_button, PatchSM.case_gate, arUpdate,
      strobe, Phoneme_new, indeterminate_bool, digitalRead, digitalWrite,
      delay, updateMode.
    modes_frame.
Qed.


(** ** Mode resolution *)

(** What the body of updateMode computes in its local copy. *)
Lemma updateMode_local_table (mode : Z) :
  updateMode_local mode false false = 1 /\
  updateMode_local mode true false = 2 /\
  updateMode_local mode false true = 3 /\
  updateMode_local mode true true = mode.
Proof. repeat split; reflexivity. Qed.




(** C2 (code evaluated at the failing input).  From the start-up object
    ([phonemeMode = 0]) with switch pair 1 reading (true,false), the body of
    updateMode computes 2 in its local copy, yet after the switch of main
    [phonemeMode] is still 0, no phrase source has run and the phrase is the
    start-up phrase; the same in both revisions. *)
Theorem main_switch_drops_resolved_mode :
  let b := mkBench true false false false false false true 0 0 7 1 in
  let w := bench_world b true Grawlix_init in
  let observe := fun w' : World => (phonemeMode (g w'), phrase (g w'), serial w') in
  updateMode_local (phonemeMode (g w)) (b_pSw1 b) (b_pSw2 b) = 2 /\
  final (PatchSM.main_switch w) observe =
    Some (0, Phrase.init, ["Advance Mode Updated."]) /\
  final (Ino.main_switch w) observe =
    Some (0, Phrase.init, ["Advance Mode Updated."]).
Proof. repeat split; vm_compute; reflexivity. Qed.

(** ** Phrase sources *)

(** setFromMemory returns and leaves the phrase as it was: the symbols
    array, the inflections array and the length (indeed the whole sketch
    object, the pins and the generator). *)
Lemma setFromMemory_frame (w : World) :
  exists w',
    setFromMemory w = Done tt w' /\
    Phrase.symbols (phrase (g w')) = Phrase.symbols (phrase (g w)) /\
    Phrase.inflections (phrase (g w')) = Phrase.inflections (phrase (g w)) /\
    Phrase.length (phrase (g w')) = Phrase.length (phrase (g w)) /\
    g w' = g w /\ pins w' = pins w /\ rng w' = rng w.
Proof.
  unfold setFromMemory.
  destruct (debugPrint_Done "Loaded new phrase from memory slot #slot" w)
    as (w' & -> & _ & _ & Hg & _ & Hr & Hp).
  exists w'. rewrite Hg. repeat split; assumption.
Qed.

(** C10 (code evaluated at the failing input).  setFromMemory itself leaves
    the phrase as it was, in every world.  Yet in [src/grawlix.ino] a cycle
    entered in Memory mode ([phonemeMode = 1]) on the start-up buffer does
    not send that buffer: the switch of main runs on into the Grid and the
    Random source, the phrase handed to [say] is a new one of length 4 that
    begins with IU, and four phonemes are strobed.  The revision with
    [break]s, on the same input, keeps the start-up buffer and strobes its 32
    entries. *)
Theorem Ino_memory_cycle_sends_new_phrase :
  let w := bench_world bench_open false (set_phonemeMode 1 Grawlix_init) in
  let buffer := fun w' : World =>
    (Phrase.length (phrase (g w')), Phrase.symbols (phrase (g w')) !! 0%nat) in
  let sent := fun w' : World =>
    (high_writes srLatch (pins w'), high_writes vStb (pins w')) in
  (forall w0 : World,
     exists w',
       setFromMemory w0 = Done tt w' /\ phrase (g w') = phrase (g w0)) /\
  buffer w = (32, Some ""%string) /\
  final (Ino.main_switch w) buffer = Some (4, Some "IU"%string) /\
  sent (outcome_world (Ino.main 1 w)) = (4%nat, 4%nat) /\
  final (PatchSM.main_switch w) (fun w' => phrase (g w')) = Some Phrase.init /\
  sent (outcome_world (PatchSM.main 1 w)) = (32%nat, 32%nat).
Proof.
  split.
  - intros w0. destruct (setFromMemory_frame w0) as (w' & E & _ & _ & _ & Hg & _).
    exists w'. split; [exact E | rewrite Hg; reflexivity].
  - repeat split; vm_compute; reflexivity.
Qed.

(** C3 (code evaluated at the failing input).  In [src/grawlix.ino], a cycle
    entered with [phonemeMode = 1] (Memory) runs the Memory source, then the
    Grid source, then the Random source, and the phrase that results is the
    Random one (here of length 4, where Memory alone leaves length 32).  The
    revision with [break]s runs the Memory source alone on the same input. *)
Theorem Ino_memory_mode_runs_every_source :
  let w := bench_world bench_idle true (set_phonemeMode 1 Grawlix_init) in
  let observe := fun w' : World => (serial w', Phrase.length (phrase (g w'))) in
  final (Ino.main_switch w) observe =
    Some ([ "Advance Mode Updated.";
            "Phoneme Mode: Memory Mode";
            "Loaded new phrase from memory slot #slot";
            "Phoneme Mode: Grid Mode";
            "Grid coords #xIndex , #yIndex = AH1";
            "Phoneme Mode: Random Mode";
            "Generated new random phrase of length 4" ], 4) /\
  final (PatchSM.main_switch w) observe =
    Some ([ "Advance Mode Updated.";
            "Phoneme Mode: Memory Mode";
            "Loaded new phrase from memory slot #slot" ], 32).
Proof. split; vm_compute; reflexivity. Qed.

(** *** The Random source *)

Lemma analogRead_Done (pin : Pin) (w : World) :
  exists v w', analogRead pin w = Done v w' /\ g w' = g w.
Proof. unfold analogRead, sample. eexists; eexists; split; reflexivity. Qed.

Lemma randomSeed_Done (seed : Z) (w : World) :
  exists w', randomSeed seed w = Done tt w' /\ g w' = g w.
Proof.
  unfold randomSeed. destruct (u32 seed =? 0);
    eexists; split; reflexivity.
Qed.

(** [random(a, b)] with [a < b] lies in [a, b): the upper bound is never
    returned. *)
Lemma random_range_bounds (r : N) (a b : Z) :
  a < b -> a <= random_range r a b < b.
Proof.
  intros Hab. unfold random_range, random_upto.
  destruct (a >=? b) eqn:E1; [zbool; lia |].
  destruct (b - a =? 0) eqn:E2; [zbool; lia |].
  pose proof (Z.rem_bound_pos (Z.of_N r) (b - a)) as Hb. lia.
Qed.

Lemma random_Done (a b : Z) (w : World) :
  a < b ->
  exists v w', random a b w = Done v w' /\ a <= v < b /\ g w' = g w.
Proof.
  intros Hab. unfold random.
  destruct (a >=? b) eqn:E1; [zbool; lia |].
  unfold bind, draw, ret.
  destruct (random_raw (hw w) (rng w)) as [r s].
  eexists; eexists; split; [reflexivity |].
  split; [apply random_range_bounds; exact Hab | reflexivity].
Qed.

Lemma lookupZ_of_nat {A : Type} (l : list A) (i : nat) :
  lookupZ l (Z.of_nat i) = l !! i.
Proof.
  unfold lookupZ. destruct (Z.of_nat i <? 0) eqn:E; [zbool; lia |].
  rewrite Nat2Z.id. reflexivity.
Qed.

Lemma write_symbol_Done (i : nat) (name : string) (w : World) :
  (i < length (Phrase.symbols (phrase (g w))))%nat ->
  exists w',
    write_symbol (Z.of_nat i) name w = Done tt w' /\
    g w' = set_phrase
             (Phrase.set_symbols (<[i := name]> (Phrase.symbols (phrase (g w))))
                                 (phrase (g w)))
             (g w).
Proof.
  intros Hi. unfold write_symbol, bind, gets, array_write.
  rewrite lookupZ_of_nat.
  destruct (lookup_lt_is_Some_2 _ _ Hi) as [old ->].
  unfold ret, modify_phrase. rewrite Nat2Z.id.
  eexists; split; reflexivity.
Qed.

Lemma write_inflection_Done (i : nat) (v : Z) (w : World) :
  (i < length (Phrase.inflections (phrase (g w))))%nat ->
  exists w',
    write_inflection (Z.of_nat i) v w = Done tt w' /\
    g w' = set_phrase
             (Phrase.set_inflections
                (<[i := v]> (Phrase.inflections (phrase (g w))))
                (phrase (g w)))
             (g w).
Proof.
  intros Hi. unfold write_inflection, bind, gets, array_write.
  rewrite lookupZ_of_nat.
  destruct (lookup_lt_is_Some_2 _ _ Hi) as [old ->].
  unfold ret, modify_phrase. rewrite Nat2Z.id.
  eexists; split; reflexivity.
Qed.

Lemma array_read_validSymbols (k : Z) (w : World) :
  0 <= k < 64 ->
  exists name,
    array_read validSymbols k w = Done name w /\
    validSymbols !! Z.to_nat k = Some name.
Proof.
  intros Hk. unfold array_read, lookupZ.
  destruct (k <? 0) eqn:E; [zbool; lia |].
  assert (Hlt : (Z.to_nat k < length validSymbols)%nat)
    by (change (length validSymbols) with 64%nat; lia).
  destruct (lookup_lt_is_Some_2 _ _ Hlt) as [name ->].
  exists name. split; reflexivity.
Qed.

(** Running a program whose first part is known to return. *)
Ltac run H := rewrite (bind_Done_intro _ _ _ _ _ H); cbv beta.

(** One round of the loop of setFromRandom. *)
Lemma Ino_setFromRandom_step_spec (i : nat) (w : World) :
  (i < 32)%nat ->
  arrays_ok (phrase (g w)) ->
  exists w' k name v,
    Ino.setFromRandom_step i w = Done tt w' /\
    0 <= k <= 62 /\ validSymbols !! Z.to_nat k = Some name /\
    0 <= v <= 2 /\
    phrase (g w') =
      Phrase.mk (<[i := name]> (Phrase.symbols (phrase (g w))))
                (<[i := v]> (Phrase.inflections (phrase (g w))))
                (Phrase.length (phrase (g w))).
Proof.
  intros Hi [Hs Hf]. unfold Ino.setFromRandom_step.
  destruct (analogRead_Done rdm w) as (seed & w1 & E1 & G1). run E1.
  destruct (randomSeed_Done seed w1) as (w2 & E2 & G2). run E2.
  destruct (random_Done 0 63 w2) as (k & w3 & E3 & Hk & G3); [lia |]. run E3.
  destruct (array_read_validSymbols k w3) as (name & E4 & Hname); [lia |].
  run E4.
  assert (G30 : g w3 = g w) by congruence.
  destruct (write_symbol_Done i name w3) as (w4 & E5 & G5);
    [rewrite G30, Hs; exact Hi |]. run E5.
  destruct (random_Done 0 3 w4) as (v & w5 & E6 & Hv & G6); [lia |]. run E6.
  destruct (write_inflection_Done i v w5) as (w6 & E7 & G7);
    [rewrite G6, G5, G30; simpl; rewrite Hf; exact Hi |].
  exists w6, k, name, v. split; [exact E7 |].
  split; [lia |]. split; [exact Hname |]. split; [lia |].
  rewrite G7, G6, G5, G30. reflexivity.
Qed.

(** The loop of setFromRandom over the indices [j, j + m). *)
Lemma Ino_setFromRandom_loop (m j : nat) (w : World) :
  (j + m <= 32)%nat ->
  arrays_ok (phrase (g w)) ->
  exists w',
    for_each (seq j m) Ino.setFromRandom_step w = Done tt w' /\
    arrays_ok (phrase (g w')) /\
    Phrase.length (phrase (g w')) = Phrase.length (phrase (g w)) /\
    (forall i, (i < j)%nat ->
       Phrase.symbols (phrase (g w')) !! i = Phrase.symbols (phrase (g w)) !! i /\
       Phrase.inflections (phrase (g w')) !! i =
         Phrase.inflections (phrase (g w)) !! i) /\
    (forall i, (j <= i < j + m)%nat -> entry_within 62 2 (phrase (g w')) i).
Proof.
  revert j w. induction m as [| m IH]; intros j w Hjm Hok.
  - exists w. simpl.
    split; [reflexivity |]. split; [exact Hok |]. split; [reflexivity |].
    split; [intros i Hi; split; reflexivity | intros i Hi; lia].
  - simpl.
    destruct (Ino_setFromRandom_step_spec j w) as
      (w1 & k & name & v & E1 & Hk & Hname & Hv & Hp1); [lia | exact Hok |].
    run E1.
    assert (Hok1 : arrays_ok (phrase (g w1))).
    { destruct Hok as [Hs Hf]. rewrite Hp1. split; simpl;
        rewrite length_insert; assumption. }
    destruct (IH (S j) w1) as (w2 & E2 & Hok2 & Hlen & Hlow & Hhigh);
      [lia | exact Hok1 |].
    exists w2. split; [exact E2 |]. split; [exact Hok2 |].
    split; [rewrite Hlen, Hp1; reflexivity |].
    split.
    + intros i Hi. destruct (Hlow i) as [Ha Hb]; [lia |].
      rewrite Ha, Hb, Hp1. simpl.
      rewrite !list_lookup_insert_ne by lia. split; reflexivity.
    + intros i Hi. destruct (Nat.eq_dec i j) as [-> | Hne].
      * destruct (Hlow j) as [Ha Hb]; [lia |].
        exists k, name, v. rewrite Ha, Hb, Hp1. simpl.
        destruct Hok as [Hs Hf].
        rewrite !list_lookup_insert_eq by lia.
        repeat split; auto; lia.
      * apply Hhigh. lia.
Qed.

(** The name STOP stands at index 63 of the vocabulary and nowhere else. *)
Lemma validSymbols_STOP (k : nat) :
  validSymbols !! k = Some "STOP"%string -> k = 63%nat.
Proof.
  do 64 (destruct k as [| k]; [simpl; intros H; first [discriminate H | reflexivity] |]).
  simpl. intros H. discriminate H.
Qed.

(** C6.  A Random phrase has a length in [4,10); each of its phonemes holds
    a symbol whose index lies in [0,62] and an inflection in [0,2].  The
    symbol of index 63 (STOP) and the inflection 3 are never produced:
    [random(0,63)] and [random(0,3)] exclude their upper bound. *)
Theorem Ino_setFromRandom_ranges (w : World) :
  arrays_ok (phrase (g w)) ->
  exists w',
    Ino.setFromRandom w = Done tt w' /\
    4 <= Phrase.length (phrase (g w')) < 10 /\
    forall i : nat,
      Z.of_nat i < Phrase.length (phrase (g w')) ->
      entry_within 62 2 (phrase (g w')) i /\
      Phrase.symbols (phrase (g w')) !! i <> Some "STOP"%string /\
      Phrase.inflections (phrase (g w')) !! i <> Some 3.
Proof.
  intros Hok. unfold Ino.setFromRandom.
  destruct (analogRead_Done rdm w) as (seed & w1 & E1 & G1). run E1.
  destruct (randomSeed_Done seed w1) as (w2 & E2 & G2). run E2.
  destruct (random_Done 4 10 w2) as (n & w3 & E3 & Hn & G3); [lia |]. run E3.
  unfold bind at 1, modify_phrase at 1.
  unfold bind at 1, gets at 1. cbv beta. simpl g.
  set (w4 := mkWorld _ _ _ _ _ _ _).
  assert (G4 : phrase (g w4) =
               Phrase.set_length n (phrase (g w))) by
    (subst w4; simpl; congruence).
  assert (Hok4 : arrays_ok (phrase (g w4))) by (rewrite G4; exact Hok).
  assert (Hlen4 : Phrase.length (phrase (set_phrase
             (Phrase.set_length n (phrase (g w3))) (g w3))) = n)
    by reflexivity.
  rewrite Hlen4. unfold for_upto.
  destruct (Ino_setFromRandom_loop (Z.to_nat n) 0 w4)
    as (w5 & E5 & Hok5 & Hlen5 & _ & Hhigh); [lia | exact Hok4 |].
  run E5.
  destruct (debugPrint_Done
              ("Generated new random phrase of length " ++ String_of_int n)%string
              w5) as (w6 & E6 & _ & _ & G6 & _).
  exists w6. split; [exact E6 |].
  rewrite G6, Hlen5, G4. simpl. split; [lia |].
  intros i Hi.
  assert (Hent : entry_within 62 2 (phrase (g w5)) i) by (apply Hhigh; lia).
  split; [exact Hent |].
  destruct Hent as (k & name & v & Hk & Hname & Hsym & Hinf & Hv).
  rewrite Hsym, Hinf. split.
  - intros [= ->]. apply validSymbols_STOP in Hname. lia.
  - intros [= ->]. lia.
Qed.

Lemma Ino_setFromRandom_ranges_witness :
  let w := bench_world bench_idle false Grawlix_init in
  arrays_ok (phrase (g w)) /\
  exists w',
    Ino.setFromRandom w = Done tt w' /\
    4 <= Phrase.length (phrase (g w')) < 10 /\
    forall i : nat,
      Z.of_nat i < Phrase.length (phrase (g w')) ->
      entry_within 62 2 (phrase (g w')) i /\
      Phrase.symbols (phrase (g w')) !! i <> Some "STOP"%string /\
      Phrase.inflections (phrase (g w')) !! i <> Some 3.
Proof.
  intros w.
  assert (H : arrays_ok (phrase (g w))) by (split; reflexivity).
  split; [exact H | exact (Ino_setFromRandom_ranges w H)].
Defined.

(** *** The Grid source *)

(** A control value in [-1,1] converts to -1, 0 or 1. *)
Lemma float_to_long_unit (q : Q) :
  (-1 <= q)%Q -> (q <= 1)%Q -> -1 <= float_to_long q <= 1.
Proof.
  destruct q as [n d]. unfold Qle, float_to_long. simpl. intros Hlo Hhi.
  assert (Hd : 0 < Z.pos d) by lia.
  assert (Hup : Z.quot n (Z.pos d) <= Z.quot (Z.pos d) (Z.pos d))
    by (apply Z.quot_le_mono; lia).
  assert (Hdn : Z.quot (- Z.pos d) (Z.pos d) <= Z.quot n (Z.pos d))
    by (apply Z.quot_le_mono; lia).
  rewrite Z.quot_opp_l in Hdn by lia.
  rewrite Z.quot_same in Hup, Hdn by lia. lia.
Qed.

Lemma float_to_long_nonneg (q : Q) :
  (0 <= q)%Q -> 0 <= float_to_long q.
Proof.
  destruct q as [n d]. unfold Qle, float_to_long. simpl. intros Hlo.
  apply Z.quot_pos; lia.
Qed.

(** For inputs in [-1,1] the indices of [src/grawlix.ino] take three values
    each, all inside the table. *)
Lemma Ino_indices_unit (x y : Q) :
  (-1 <= x)%Q -> (x <= 1)%Q -> (-1 <= y)%Q -> (y <= 1)%Q ->
  (Ino.xIndex x = 0 \/ Ino.xIndex x = 3 \/ Ino.xIndex x = 7) /\
  (Ino.yIndex y = 0 \/ Ino.yIndex y = 2 \/ Ino.yIndex y = 4).
Proof.
  intros Hx1 Hx2 Hy1 Hy2.
  pose proof (float_to_long_unit x Hx1 Hx2) as Hx.
  pose proof (float_to_long_unit y Hy1 Hy2) as Hy.
  unfold Ino.xIndex, Ino.yIndex.
  assert (Ex : float_to_long x = -1 \/ float_to_long x = 0 \/ float_to_long x = 1)
    by lia.
  assert (Ey : float_to_long y = -1 \/ float_to_long y = 0 \/ float_to_long y = 1)
    by lia.
  split.
  - destruct Ex as [-> | [-> | ->]]; vm_compute; tauto.
  - destruct Ey as [-> | [-> | ->]]; vm_compute; tauto.
Qed.

(** setFromGrid, when the tables give a symbol for the indices. *)
Lemma setFromGrid_body_Done (xi yi : Z) (name : string)
    (msg : string -> string) (w : World) :
  grid_symbol xi yi = Some name ->
  (0 < length (Phrase.symbols (phrase (g w))))%nat ->
  exists r w',
    (modify_phrase (Phrase.set_length 1) ;;
     row <- array_read vowelGrid xi ;;
     code <- array_read row yi ;;
     name <- array_read validSymbols code ;;
     write_symbol 0 name ;;
     debugPrint (msg name) ;;
     sample indeterminate) w = Done r w' /\
    phrase (g w') =
      Phrase.mk (<[0%nat := name]> (Phrase.symbols (phrase (g w))))
                (Phrase.inflections (phrase (g w))) 1 /\
    pins w' = pins w.
Proof.
  unfold grid_symbol. intros Hsym Hlen.
  destruct (lookupZ vowelGrid xi) as [row |] eqn:Erow; [| discriminate].
  destruct (lookupZ row yi) as [code |] eqn:Ecode; [| discriminate].
  unfold bind at 1, modify_phrase at 1.
  set (w1 := mkWorld _ _ _ _ _ _ _).
  unfold bind at 1, array_read at 1. rewrite Erow. unfold ret at 1.
  unfold bind at 1, array_read at 1. rewrite Ecode. unfold ret at 1.
  unfold bind at 1, array_read at 1. rewrite Hsym. unfold ret at 1.
  destruct (write_symbol_Done 0 name w1) as (w2 & E2 & G2);
    [subst w1; simpl; exact Hlen |].
  change 0 with (Z.of_nat 0) at 1. run E2.
  destruct (debugPrint_Done (msg name) w2)
    as (w3 & E3 & _ & _ & G3 & _ & _ & P3).
  run E3. unfold sample.
  eexists; eexists. split; [reflexivity |]. simpl.
  rewrite G3, G2. split; [reflexivity |].
  rewrite P3.
  apply (preserves_Done same_pins _ _ _ _ (write_symbol_pins _ _) E2).
Qed.

(** For inputs in [0,1] the indices of [src/unnamed/part_000] are 0 or 1 for
    x and 0 for y. *)
Lemma PatchSM_indices_unit (x y : Q) :
  (0 <= x)%Q -> (x <= 1)%Q -> (0 <= y)%Q -> (y <= 1)%Q ->
  (PatchSM.xIndex x = 0 \/ PatchSM.xIndex x = 1) /\ PatchSM.yIndex y = 0.
Proof.
  intros Hx1 Hx2 Hy1 Hy2.
  assert (Hx : -1 <= float_to_long x <= 1)
    by (apply float_to_long_unit; [| exact Hx2];
        unfold Qle in *; simpl in *; lia).
  assert (Hy : -1 <= float_to_long y <= 1)
    by (apply float_to_long_unit; [| exact Hy2];
        unfold Qle in *; simpl in *; lia).
  pose proof (float_to_long_nonneg x Hx1) as Hx0.
  pose proof (float_to_long_nonneg y Hy1) as Hy0.
  unfold PatchSM.xIndex, PatchSM.yIndex.
  assert (Ex : float_to_long x = 0 \/ float_to_long x = 1) by lia.
  assert (Ey : float_to_long y = 0 \/ float_to_long y = 1) by lia.
  split.
  - destruct Ex as [-> | ->]; vm_compute; tauto.
  - destruct Ey as [-> | ->]; vm_compute; reflexivity.
Qed.

(** For grid inputs within [-1,1], setFromGrid of
    [src/grawlix.ino] scales each input, cut to an integer, linearly and
    without clamping to an x index in [0,7] and a y index in [0,4]; the table
    lookup is inside [vowelGrid], the call returns, the phrase has length 1
    and its first symbol is the one looked up; the inflections are not
    written.  (-1,-1) selects vowelGrid[0][0] and (1,1) selects
    vowelGrid[7][4].  In [src/unnamed/part_000], whose scaling runs over the
    input range 0..5, inputs within [0,1] give indices within the table
    too. *)
Lemma setFromGrid_within_table (x y : Q) (w : World) :
  (-1 <= x)%Q -> (x <= 1)%Q -> (-1 <= y)%Q -> (y <= 1)%Q ->
  (0 < length (Phrase.symbols (phrase (g w))))%nat ->
  (0 <= Ino.xIndex x <= 7 /\ 0 <= Ino.yIndex y <= 4 /\
   exists name r w',
     grid_symbol (Ino.xIndex x) (Ino.yIndex y) = Some name /\
     Ino.setFromGrid x y w = Done r w' /\
     Phrase.length (phrase (g w')) = 1 /\
     Phrase.symbols (phrase (g w')) =
       <[0%nat := name]> (Phrase.symbols (phrase (g w))) /\
     Phrase.inflections (phrase (g w')) = Phrase.inflections (phrase (g w))) /\
  (Ino.xIndex (-1) = 0 /\ Ino.yIndex (-1) = 0 /\
   Ino.xIndex 1 = 7 /\ Ino.yIndex 1 = 4 /\
   grid_symbol 0 0 = validSymbols !! 44%nat /\
   grid_symbol 7 4 = validSymbols !! 45%nat) /\
  ((0 <= x)%Q -> (0 <= y)%Q ->
   0 <= PatchSM.xIndex x <= 7 /\ 0 <= PatchSM.yIndex y <= 4 /\
   exists name r w',
     grid_symbol (PatchSM.xIndex x) (PatchSM.yIndex y) = Some name /\
     PatchSM.setFromGrid x y w = Done r w' /\
     Phrase.length (phrase (g w')) = 1 /\
     Phrase.symbols (phrase (g w')) =
       <[0%nat := name]> (Phrase.symbols (phrase (g w))) /\
     Phrase.inflections (phrase (g w')) = Phrase.inflections (phrase (g w))).
Proof.
  intros Hx1 Hx2 Hy1 Hy2 Hlen. split; [| split].
  - destruct (Ino_indices_unit x y Hx1 Hx2 Hy1 Hy2) as [Hx Hy].
    split; [lia |]. split; [lia |].
    assert (Hsym : exists name,
               grid_symbol (Ino.xIndex x) (Ino.yIndex y) = Some name).
    { destruct Hx as [-> | [-> | ->]], Hy as [-> | [-> | ->]];
        eexists; vm_compute; reflexivity. }
    destruct Hsym as [name Hsym]. unfold Ino.setFromGrid.
    destruct (setFromGrid_body_Done (Ino.xIndex x) (Ino.yIndex y) name
                (fun name => "Grid coords #xIndex , #yIndex = " ++ name)%string
                w Hsym Hlen)
      as (r & w' & E & Hp & _).
    exists name, r, w'. split; [exact Hsym |]. split; [exact E |].
    rewrite Hp. repeat split; reflexivity.
  - repeat split; vm_compute; reflexivity.
  - intros Hx0 Hy0.
    destruct (PatchSM_indices_unit x y Hx0 Hx2 Hy0 Hy2) as [Hx Hy].
    split; [lia |]. split; [lia |].
    assert (Hsym : exists name,
               grid_symbol (PatchSM.xIndex x) (PatchSM.yIndex y) = Some name).
    { rewrite Hy. destruct Hx as [-> | ->]; eexists; vm_compute; reflexivity. }
    destruct Hsym as [name Hsym]. unfold PatchSM.setFromGrid.
    destruct (setFromGrid_body_Done (PatchSM.xIndex x) (PatchSM.yIndex y) name
                (fun name =>
                   "Grid coords " ++ String_of_int (PatchSM.xIndex x) ++ ", "
                   ++ String_of_int (PatchSM.yIndex y) ++ " = " ++ name)%string
                w Hsym Hlen)
      as (r & w' & E & Hp & _).
    exists name, r, w'. split; [exact Hsym |]. split; [exact E |].
    rewrite Hp. repeat split; reflexivity.
Qed.

Lemma setFromGrid_within_table_witness :
  let w := bench_world bench_idle false Grawlix_init in
  (-1 <= 1)%Q /\ (1 <= 1)%Q /\ (0 <= 1)%Q /\
  (0 < length (Phrase.symbols (phrase (g w))))%nat /\
  (exists name r w',
     grid_symbol (Ino.xIndex 1) (Ino.yIndex 1) = Some name /\
     Ino.setFromGrid 1 1 w = Done r w' /\
     Phrase.length (phrase (g w')) = 1) /\
  (exists name r w',
     grid_symbol (PatchSM.xIndex 1) (PatchSM.yIndex 1) = Some name /\
     PatchSM.setFromGrid 1 1 w = Done r w' /\
     Phrase.length (phrase (g w')) = 1).
Proof.
  intros w.
  assert (H1 : (-1 <= 1)%Q) by (unfold Qle; simpl; lia).
  assert (H2 : (1 <= 1)%Q) by (unfold Qle; simpl; lia).
  assert (H0 : (0 <= 1)%Q) by (unfold Qle; simpl; lia).
  assert (H3 : (0 < length (Phrase.symbols (phrase (g w))))%nat)
    by (simpl; lia).
  split; [exact H1 |]. split; [exact H2 |]. split; [exact H0 |].
  split; [exact H3 |].
  destruct (setFromGrid_within_table 1 1 w H1 H2 H1 H2 H3)
    as ((_ & _ & name & r & w' & Hs & E & Hl & _) & _ & Hpatch).
  destruct (Hpatch H0 H0) as (_ & _ & name2 & r2 & w2 & Hs2 & E2 & Hl2 & _).
  split.
  - exists name, r, w'. repeat split; assumption.
  - exists name2, r2, w2. repeat split; assumption.
Defined.

(** Nothing clamps: for the input (2,2) the indices of
    [src/grawlix.ino] are 10 and 6, outside the 8 by 5 table, and the lookup
    leaves the array.  And the first inflection of the phrase is not set to
    0: a phrase whose first inflection is 2 keeps it. *)
Lemma setFromGrid_does_not_clamp :
  Ino.xIndex 2 = 10 /\ Ino.yIndex 2 = 6 /\
  ~ (0 <= Ino.xIndex 2 <= 7) /\
  lookupZ vowelGrid (Ino.xIndex 2) = None /\
  is_Fault (Ino.setFromGrid 2 2 (bench_world bench_idle false Grawlix_init))
    = true /\
  final (Ino.setFromGrid 0 0
           (bench_world bench_idle false
              (set_phrase phrase_after_random Grawlix_init)))
        (fun w' => (Phrase.length (phrase (g w')),
                    Phrase.inflections (phrase (g w')) !! 0%nat))
    = Some (1, Some 2).
Proof.
  split; [reflexivity |]. split; [reflexivity |].
  split; [vm_compute; intros [_ H]; apply H; reflexivity |].
  repeat split; vm_compute; reflexivity.
Qed.

(** C7 (code evaluated at the failing input).  In [src/unnamed/part_000]
    the input range of the scaling is written [0, 10^16-1], which is 0 to 5:
    the corner (1,1) gives the indices 1 and 0 and selects vowelGrid[1][0],
    the symbol E1, where [src/grawlix.ino] (which scales over -1 to 1) gives
    7 and 4 and selects vowelGrid[7][4], the symbol W; and the corner (-1,-1)
    gives the x index -1, so that the lookup leaves the table.  In
    [src/grawlix.ino] the inputs are cut to integers before they are scaled:
    (1/2,1/2) selects the cell that (0,0) selects. *)
Theorem PatchSM_setFromGrid_corners :
  let w := bench_world bench_idle false Grawlix_init in
  let first := fun w' : World =>
    (Phrase.length (phrase (g w')), Phrase.symbols (phrase (g w')) !! 0%nat) in
  PatchSM.in_max = 5 /\
  PatchSM.xIndex 1 = 1 /\ PatchSM.yIndex 1 = 0 /\
  grid_symbol 1 0 = Some "E1"%string /\
  grid_symbol 7 4 = Some "W"%string /\
  final (PatchSM.setFromGrid 1 1 w) first = Some (1, Some "E1"%string) /\
  PatchSM.xIndex (-1) = -1 /\
  lookupZ vowelGrid (PatchSM.xIndex (-1)) = None /\
  is_Fault (PatchSM.setFromGrid (-1) (-1) w) = true /\
  Ino.xIndex 1 = 7 /\ Ino.yIndex 1 = 4 /\
  final (Ino.setFromGrid 1 1 w) first = Some (1, Some "W"%string) /\
  Ino.xIndex (-1) = 0 /\ Ino.yIndex (-1) = 0 /\
  Ino.xIndex (1 # 2) = Ino.xIndex 0 /\ Ino.yIndex (1 # 2) = Ino.yIndex 0.
Proof. repeat split; vm_compute; reflexivity. Qed.

(** ** The clock generator of src/unnamed/part_000 *)

Lemma u32_nonneg (z : Z) : 0 <= u32 z.
Proof. unfold u32. apply Z.mod_pos_bound. reflexivity. Qed.

(** The constants written with [^] are exclusive ors, and the pulse width
    0.5 stored in a [uint32_t] is 0. *)
Lemma HardwarePWM_constants (pclk2 arr0 ccr0 : Z) :
  let s := PatchSM.HardwarePWM.construct pclk2 arr0 ccr0 in
  PatchSM.HardwarePWM.kHz s = 9 /\
  PatchSM.HardwarePWM.MHz s = 12 /\
  PatchSM.HardwarePWM.default_freq s = 6480 /\
  PatchSM.HardwarePWM.default_pw s = 0 /\
  PatchSM.HardwarePWM.default_pw_period s = 0 /\
  PatchSM.HardwarePWM.target_pw s = 0.
Proof.
  simpl. repeat split; try reflexivity.
  change (PatchSM.HardwarePWM.float_to_u32 (1 # 2)) with 0.
  rewrite Z.mul_0_r. reflexivity.
Qed.

(** After Init the compare value is 0. *)
Lemma HardwarePWM_Init_registers (pclk2 arr0 ccr0 : Z) :
  PatchSM.HardwarePWM.CCR1
    (PatchSM.HardwarePWM.Init
       (PatchSM.HardwarePWM.construct pclk2 arr0 ccr0)) = 0 /\
  0 <= PatchSM.HardwarePWM.ARR
         (PatchSM.HardwarePWM.Init
            (PatchSM.HardwarePWM.construct pclk2 arr0 ccr0)) /\
  PatchSM.HardwarePWM.target_pw
    (PatchSM.HardwarePWM.Init
       (PatchSM.HardwarePWM.construct pclk2 arr0 ccr0)) = 0.
Proof.
  destruct (HardwarePWM_constants pclk2 arr0 ccr0)
    as (_ & _ & _ & _ & Hpp & Hpw).
  simpl in *. split; [exact Hpp |]. split; [apply u32_nonneg | exact Hpw].
Qed.

Lemma u16_range (z : Z) : 0 <= u16 z < 2 ^ 16.
Proof. unfold u16. apply Z.mod_pos_bound. reflexivity. Qed.

Lemma u16_idem (z : Z) : u16 (u16 z) = u16 z.
Proof. unfold u16. apply Z.mod_mod. discriminate. Qed.

Lemma u32_idem (z : Z) : u32 (u32 z) = u32 z.
Proof. unfold u32. apply Z.mod_mod. discriminate. Qed.

(** The table read of setFreq stays inside the 37 multipliers exactly for
    the pitch values 0 to 4: the index is [voct_val * 37 / 5]. *)
Lemma setFreq_voct_mult_defined (v : Z) :
  0 <= v ->
  (exists q, PatchSM.HardwarePWM.setFreq_voct_mult v = Some q) <-> v <= 4.
Proof.
  intros Hv. unfold PatchSM.HardwarePWM.setFreq_voct_mult,
    PatchSM.HardwarePWM.setFreq_voct_index, map_long.
  change PatchSM.in_max with 5. rewrite Z.sub_0_r, Z.add_0_r.
  change (37 - 0) with 37. change (5 - 0) with 5.
  rewrite Z.quot_div_nonneg by lia. split.
  - intros [q Hq].
    destruct (Z_le_gt_dec v 4) as [H | H]; [exact H | exfalso].
    assert (Hi : 37 <= v * 37 / 5) by (apply Z.div_le_lower_bound; lia).
    unfold lookupZ in Hq. destruct (v * 37 / 5 <? 0); [discriminate |].
    assert (Hnone : PatchSM.HardwarePWM.multipliers !! Z.to_nat (v * 37 / 5)
                    = None).
    { apply lookup_ge_None.
      change (length PatchSM.HardwarePWM.multipliers) with 37%nat. lia. }
    rewrite Hnone in Hq. discriminate Hq.
  - intros H.
    assert (E : v = 0 \/ v = 1 \/ v = 2 \/ v = 3 \/ v = 4) by lia.
    destruct E as [-> | [-> | [-> | [-> | ->]]]]; eexists; reflexivity.
Qed.

(** For a 16-bit knob value and a pitch value up to 4 the frequency
    [720 * MHz * freq_knob * voct_val] does not wrap. *)
Lemma setFreq_target_freq (k v : Z) :
  0 <= k < 2 ^ 16 -> 0 <= v <= 4 ->
  u32 (u32 (u32 (720 * 12) * k) * v) = 8640 * k * v.
Proof.
  intros Hk Hv. change (2 ^ 16) with 65536 in Hk.
  change (u32 (720 * 12)) with 8640.
  assert (H1 : 0 <= 8640 * k < 2 ^ 32)
    by (change (2 ^ 32) with 4294967296; lia).
  assert (H2 : 0 <= 8640 * k * v < 2 ^ 32)
    by (change (2 ^ 32) with 4294967296; nia).
  unfold u32. rewrite (Z.mod_small (8640 * k)) by exact H1.
  apply Z.mod_small. exact H2.
Qed.

(** What setFreq does on an object whose [MHz] member is the 12 that the
    class gives it: it has a result exactly for the arguments of
    [setFreq_completes], and the result holds the frequency, the tick count
    and the compare value computed from the stored pulse width. *)
Lemma setFreq_spec (k v : Z) (s : PatchSM.HardwarePWM.t) :
  PatchSM.HardwarePWM.MHz s = 12 ->
  (PatchSM.HardwarePWM.setFreq_completes k v ->
   PatchSM.HardwarePWM.setFreq k v s =
     let f := 8640 * u16 k * u16 v in
     let ticks := u32 (PatchSM.HardwarePWM.system_clock_rate s / f - 1) in
     Some (PatchSM.HardwarePWM.set_registers ticks
             (u32 (ticks * PatchSM.HardwarePWM.target_pw s))
             (PatchSM.HardwarePWM.set_target_freq f s))) /\
  (~ PatchSM.HardwarePWM.setFreq_completes k v ->
   PatchSM.HardwarePWM.setFreq k v s = None).
Proof.
  intros HM. pose proof (u16_range k) as Hk. pose proof (u16_range v) as Hv.
  unfold PatchSM.HardwarePWM.setFreq_completes.
  unfold PatchSM.HardwarePWM.setFreq. cbv zeta. rewrite HM.
  destruct (PatchSM.HardwarePWM.setFreq_voct_mult (u16 v)) as [q |] eqn:Eq.
  - assert (Hv4 : u16 v <= 4).
    { apply (setFreq_voct_mult_defined (u16 v)); [lia |]. exists q. exact Eq. }
    rewrite (setFreq_target_freq (u16 k) (u16 v)) by lia.
    unfold PatchSM.HardwarePWM.freqToTicks. cbv zeta.
    simpl PatchSM.HardwarePWM.target_freq.
    simpl PatchSM.HardwarePWM.system_clock_rate.
    assert (Hsmall : u32 (8640 * u16 k * u16 v) = 8640 * u16 k * u16 v).
    { unfold u32. apply Z.mod_small. change (2 ^ 16) with 65536 in Hk.
      change (2 ^ 32) with 4294967296. nia. }
    rewrite Hsmall. split.
    + intros [Hk0 Hv1].
      destruct (8640 * u16 k * u16 v =? 0) eqn:E0; zbool; [nia |].
      reflexivity.
    + intros Hn.
      destruct (8640 * u16 k * u16 v =? 0) eqn:E0; zbool; [reflexivity |].
      exfalso. apply Hn. split; [nia | nia].
  - split.
    + intros [_ Hv14]. exfalso.
      destruct (proj2 (setFreq_voct_mult_defined (u16 v) (proj1 Hv)))
        as [q Hq]; [lia |].
      rewrite Hq in Eq. discriminate Eq.
    + intros _. reflexivity.
Qed.

Lemma setFreq_completes_dec (k v : Z) :
  {PatchSM.HardwarePWM.setFreq_completes k v} +
  {~ PatchSM.HardwarePWM.setFreq_completes k v}.
Proof.
  unfold PatchSM.HardwarePWM.setFreq_completes.
  destruct (Z.eq_dec (u16 k) 0) as [H0 | H0]; [right; tauto |].
  destruct (Z_le_dec 1 (u16 v)) as [H1 | H1]; [| right; tauto].
  destruct (Z_le_dec (u16 v) 4) as [H4 | H4]; [left; tauto | right; tauto].
Qed.

(** setFreq has a result exactly for the arguments of
    [setFreq_completes]. *)
Lemma setFreq_defined (k v : Z) (s : PatchSM.HardwarePWM.t) :
  PatchSM.HardwarePWM.MHz s = 12 ->
  PatchSM.HardwarePWM.setFreq_completes k v <->
  exists s', PatchSM.HardwarePWM.setFreq k v s = Some s'.
Proof.
  intros HM. destruct (setFreq_spec k v s HM) as [Hyes Hno]. split.
  - intros H. rewrite (Hyes H). eexists. reflexivity.
  - intros [s' E].
    destruct (setFreq_completes_dec k v) as [H | H]; [exact H |].
    rewrite (Hno H) in E. discriminate E.
Qed.

(** setFreq leaves the members alone, but for the target frequency. *)
Lemma setFreq_members (k v : Z) (s s' : PatchSM.HardwarePWM.t) :
  PatchSM.HardwarePWM.setFreq k v s = Some s' ->
  PatchSM.HardwarePWM.MHz s' = PatchSM.HardwarePWM.MHz s /\
  PatchSM.HardwarePWM.system_clock_rate s' =
    PatchSM.HardwarePWM.system_clock_rate s /\
  PatchSM.HardwarePWM.target_pw s' = PatchSM.HardwarePWM.target_pw s /\
  PatchSM.HardwarePWM.CCR1 s' =
    u32 (PatchSM.HardwarePWM.ARR s' * PatchSM.HardwarePWM.target_pw s) /\
  0 <= PatchSM.HardwarePWM.ARR s' < 2 ^ 32 /\
  PatchSM.HardwarePWM.freqToTicks s' (PatchSM.HardwarePWM.target_freq s') =
    Some (PatchSM.HardwarePWM.ARR s').
Proof.
  unfold PatchSM.HardwarePWM.setFreq. cbv zeta.
  destruct (PatchSM.HardwarePWM.setFreq_voct_mult (u16 v)); [| discriminate].
  match goal with |- match ?x with _ => _ end = _ -> _ =>
    destruct x as [ticks |] eqn:E; [| discriminate]
  end.
  intros [= <-]. simpl.
  repeat split; try reflexivity.
  - unfold PatchSM.HardwarePWM.freqToTicks in E. cbv zeta in E.
    destruct (_ =? 0) in E; [discriminate |]. injection E as <-.
    apply u32_nonneg.
  - unfold PatchSM.HardwarePWM.freqToTicks in E. cbv zeta in E.
    destruct (_ =? 0) in E; [discriminate |]. injection E as <-.
    apply Z.mod_pos_bound. reflexivity.
  - exact E.
Qed.

(** With the pulse width at 0, setFreq writes a compare value of 0. *)
Lemma setFreq_keeps_zero_duty (k v : Z) (s s' : PatchSM.HardwarePWM.t) :
  PatchSM.HardwarePWM.target_pw s = 0 ->
  PatchSM.HardwarePWM.setFreq k v s = Some s' ->
  PatchSM.HardwarePWM.CCR1 s' = 0 /\
  0 <= PatchSM.HardwarePWM.ARR s' /\
  PatchSM.HardwarePWM.target_pw s' = 0.
Proof.
  intros Hpw E.
  destruct (setFreq_members k v s s' E) as (_ & _ & Hp & Hc & Ha & _).
  rewrite Hc, Hp, Hpw, Z.mul_0_r. split; [reflexivity |]. split; [lia | reflexivity].
Qed.

(** A run of setFreq calls keeps the pulse width and the compare value at
    0. *)
Lemma run_setFreq_zero_duty (ops : list PatchSM.HardwarePWM.Op)
    (s s' : PatchSM.HardwarePWM.t) :
  PatchSM.HardwarePWM.CCR1 s = 0 /\
  0 <= PatchSM.HardwarePWM.ARR s /\
  PatchSM.HardwarePWM.target_pw s = 0 ->
  forallb PatchSM.HardwarePWM.is_setFreq ops = true ->
  PatchSM.HardwarePWM.run ops s = Some s' ->
  PatchSM.HardwarePWM.CCR1 s' = 0 /\
  0 <= PatchSM.HardwarePWM.ARR s' /\
  PatchSM.HardwarePWM.target_pw s' = 0.
Proof.
  revert s. induction ops as [| o ops IH]; intros s Hs Hall Hrun.
  - simpl in Hrun. injection Hrun as <-. exact Hs.
  - simpl in Hall. apply andb_prop in Hall as [Ho Hall].
    destruct o as [k v | pw]; [| discriminate Ho].
    simpl in Hrun.
    destruct (PatchSM.HardwarePWM.setFreq k v s) as [s1 |] eqn:E;
      [| discriminate Hrun].
    apply (IH s1); [| exact Hall | exact Hrun].
    destruct Hs as (_ & _ & Hp).
    apply (setFreq_keeps_zero_duty k v s s1 Hp E).
Qed.

(** A run of setFreq calls has a result exactly when every call has
    arguments with which setFreq completes. *)
Lemma run_setFreq_defined (ops : list PatchSM.HardwarePWM.Op)
    (s : PatchSM.HardwarePWM.t) :
  PatchSM.HardwarePWM.MHz s = 12 ->
  forallb PatchSM.HardwarePWM.is_setFreq ops = true ->
  Forall PatchSM.HardwarePWM.op_completes ops <->
  exists s', PatchSM.HardwarePWM.run ops s = Some s'.
Proof.
  revert s. induction ops as [| o ops IH]; intros s HM Hall.
  - simpl. split; [intros _; eexists; reflexivity | intros _; constructor].
  - simpl in Hall. apply andb_prop in Hall as [Ho Hall].
    destruct o as [k v | pw]; [| discriminate Ho]. simpl. split.
    + intros H. apply Forall_cons_1 in H as [Hkv Hrest]. simpl in Hkv.
      destruct (proj1 (setFreq_defined k v s HM) Hkv) as [s1 E1].
      rewrite E1. apply (IH s1); [| exact Hall | exact Hrest].
      destruct (setFreq_members k v s s1 E1) as (HM1 & _). congruence.
    + intros [s' Hrun].
      destruct (PatchSM.HardwarePWM.setFreq k v s) as [s1 |] eqn:E1;
        [| discriminate Hrun].
      constructor.
      * simpl. apply (setFreq_defined k v s HM). exists s1. exact E1.
      * apply (IH s1); [| exact Hall | exists s'; exact Hrun].
        destruct (setFreq_members k v s s1 E1) as (HM1 & _). congruence.
Qed.

(** C8, as the code has it.  After initialisation, and after any sequence of
    setFreq calls that follows it and completes, the compare value CCR1 is
    at most the period ARR (it is 0, the pulse width member being 0);
    nothing is clamped.  A sequence of setFreq calls completes exactly when
    every call has, as 16-bit values, a frequency knob that is not zero and
    a pitch value from 1 to 4: any other call divides by a zero frequency or
    reads outside the table of multipliers. *)
Theorem setFreq_duty_within_period
    (pclk2 arr0 ccr0 : Z) (ops : list PatchSM.HardwarePWM.Op) :
  forallb PatchSM.HardwarePWM.is_setFreq ops = true ->
  let s0 := PatchSM.HardwarePWM.Init
              (PatchSM.HardwarePWM.construct pclk2 arr0 ccr0) in
  PatchSM.HardwarePWM.CCR1 s0 <= PatchSM.HardwarePWM.ARR s0 /\
  (Forall PatchSM.HardwarePWM.op_completes ops <->
   exists s', PatchSM.HardwarePWM.run ops s0 = Some s') /\
  (forall s',
     PatchSM.HardwarePWM.run ops s0 = Some s' ->
     PatchSM.HardwarePWM.CCR1 s' <= PatchSM.HardwarePWM.ARR s' /\
     PatchSM.HardwarePWM.CCR1 s' = 0 /\
     PatchSM.HardwarePWM.target_pw s' = 0).
Proof.
  intros Hall s0.
  pose proof (HardwarePWM_Init_registers pclk2 arr0 ccr0) as Hinit.
  fold s0 in Hinit. split; [| split].
  - destruct Hinit as (Hc & Ha & _). lia.
  - apply run_setFreq_defined; [reflexivity | exact Hall].
  - intros s' Hrun.
    destruct (run_setFreq_zero_duty ops s0 s' Hinit Hall Hrun)
      as (Hc & Ha & Hp).
    repeat split; try assumption. lia.
Qed.

Lemma setFreq_duty_within_period_witness :
  let ops := [ PatchSM.HardwarePWM.OpSetFreq 1 1;
               PatchSM.HardwarePWM.OpSetFreq 3 2 ] in
  forallb PatchSM.HardwarePWM.is_setFreq ops = true /\
  exists s',
    PatchSM.HardwarePWM.run ops
      (PatchSM.HardwarePWM.Init
         (PatchSM.HardwarePWM.construct 100000000 65535 0)) = Some s' /\
    PatchSM.HardwarePWM.CCR1 s' <= PatchSM.HardwarePWM.ARR s'.
Proof.
  intros ops.
  assert (Hall : forallb PatchSM.HardwarePWM.is_setFreq ops = true)
    by reflexivity.
  split; [exact Hall |].
  destruct (setFreq_duty_within_period 100000000 65535 0 ops Hall)
    as (_ & Hdef & Hle).
  assert (Hc : Forall PatchSM.HardwarePWM.op_completes ops).
  { repeat constructor; vm_compute; discriminate. }
  destruct (proj1 Hdef Hc) as [s' E].
  exists s'. split; [exact E |]. exact (proj1 (Hle s' E)).
Defined.

(** C8, counterexample.  With a 100 MHz timer clock the period after Init
    is 15431.  setPulseWidth(2) then writes the compare value 30861, and
    setPulseWidth(0) writes 4294967295; a setFreq that follows
    setPulseWidth(2) writes a compare value twice the period.  And setFreq
    does not take any values: with a knob value of 0 the tick count divides
    by zero, and with a pitch value of 5 the table of multipliers is read
    past its end. *)
Lemma setPulseWidth_exceeds_period :
  let s0 := PatchSM.HardwarePWM.Init
              (PatchSM.HardwarePWM.construct 100000000 65535 0) in
  let registers := fun s => (PatchSM.HardwarePWM.ARR s,
                             PatchSM.HardwarePWM.CCR1 s) in
  registers s0 = (15431, 0) /\
  option_map registers (PatchSM.HardwarePWM.setPulseWidth 2 s0)
    = Some (15431, 30861) /\
  option_map registers (PatchSM.HardwarePWM.setPulseWidth 0 s0)
    = Some (15431, 4294967295) /\
  option_map registers
    (PatchSM.HardwarePWM.run [ PatchSM.HardwarePWM.OpSetPulseWidth 2;
                               PatchSM.HardwarePWM.OpSetFreq 1 1 ] s0)
    = Some (11573, 23146) /\
  PatchSM.HardwarePWM.setFreq 0 1 s0 = None /\
  PatchSM.HardwarePWM.setFreq 1 5 s0 = None /\
  ~ (forall pw s',
       PatchSM.HardwarePWM.setPulseWidth pw s0 = Some s' ->
       PatchSM.HardwarePWM.CCR1 s' <= PatchSM.HardwarePWM.ARR s').
Proof.
  split; [vm_compute; reflexivity |].
  split; [vm_compute; reflexivity |].
  split; [vm_compute; reflexivity |].
  split; [vm_compute; reflexivity |].
  split; [vm_compute; reflexivity |].
  split; [vm_compute; reflexivity |].
  intros H.
  destruct (PatchSM.HardwarePWM.setPulseWidth 2
              (PatchSM.HardwarePWM.Init
                 (PatchSM.HardwarePWM.construct 100000000 65535 0)))
    as [s1 |] eqn:E; [| vm_compute in E; discriminate E].
  specialize (H 2 s1 E).
  vm_compute in E. injection E as <-. vm_compute in H. apply H. reflexivity.
Qed.

(** ** The advance gate *)

(** Goals about what a chain of returning steps left unchanged. *)
Ltac board := unfold same_board in *; simpl; intuition congruence.










(** C5 (code evaluated at the failing input).  In [src/grawlix.ino], Auto
    mode with the acknowledge line high and the gate input low: the switch
    falls through to the Gate statements, [advance] is false and advListen
    spins, where the specified gate permits the advance.  In both revisions
    arUpdate drops the level it reads: in Auto mode of
    [src/unnamed/part_000] the advance is refused with the acknowledge line
    high and granted with the acknowledge line low, as the unspecified return
    value has it. *)
Theorem Ino_auto_mode_waits_for_gate :
  let auto := set_advanceMode 1 Grawlix_init in
  let ack_high := mkBench false false false false false false true 0 0 7 1 in
  let ack_high' := mkBench false false false false false false true 0 0 7 0 in
  let ack_low := mkBench false false false false false false false 0 0 7 1 in
  result (Ino.advListen_switch (bench_world ack_high false auto)) = Some false /\
  is_Spin (Ino.advListen (bench_world ack_high false auto)) = true /\
  mayAdvance 1 true false false = true /\
  result (PatchSM.advListen_switch (bench_world ack_high' false auto))
    = Some false /\
  result (PatchSM.advListen_switch (bench_world ack_low false auto))
    = Some true /\
  mayAdvance 1 false false false = false.
Proof. repeat split; vm_compute; reflexivity. Qed.

(** ** The chip link *)

Lemma emit_all_Done (l : list Event) (w : World) :
  exists w',
    emit_all l w = Done tt w' /\ same_board w w' /\ pins w' = pins w ++ l.
Proof.
  revert w. induction l as [| e l IH]; intros w.
  - exists w. simpl. split; [reflexivity |]. rewrite app_nil_r. board.
  - simpl. unfold bind at 1, emit at 1.
    match goal with |- context [emit_all l ?w0] =>
      destruct (IH w0) as (w' & E & B & P)
    end.
    exists w'. split; [exact E |]. simpl in *. rewrite P, <- app_assoc.
    board.
Qed.

(** shiftUpdate puts the byte on the shift register, most significant bit
    first, and pulses the latch. *)
Lemma Ino_shiftUpdate_Done (data : Z) (w : World) :
  exists w',
    Ino.shiftUpdate data w = Done tt w' /\
    same_board w w' /\ pins w' = pins w ++ load_events data.
Proof.
  unfold Ino.shiftUpdate, shiftOut_MSBFIRST.
  destruct (emit_all_Done (shiftOut_events srData srClk data) w)
    as (w1 & E1 & B1 & P1).
  run E1. unfold bind, digitalWrite, emit.
  eexists. split; [reflexivity |]. simpl. unfold load_events.
  rewrite P1, <- !app_assoc. board.
Qed.

















(** ** Further properties of the codec *)

Lemma ctor_payload (symbol : string) (inflection : Z) :
  Phoneme.payload (Phoneme.ctor symbol inflection) =
  to_byte (Z.lor (to_byte (Z.shiftl
                             (Phoneme.inflectionIndex
                                (Phoneme.ctor symbol inflection)) 6))
                 (Phoneme.symbolIndex (Phoneme.ctor symbol inflection))).
Proof. reflexivity. Qed.

(** X1.  Whatever the arguments of the constructor, the payload is a byte
    whose bits 7:6 are the stored inflection index and whose bits 5:0 are
    the stored symbol index: both fields are recovered from the payload by
    division and remainder (or shift and mask) by 64. *)
Theorem Phoneme_payload_layout (symbol : string) (inflection : Z) :
  let p := Phoneme.ctor symbol inflection in
  0 <= Phoneme.payload p < 256 /\
  Phoneme.payload p / 64 = Phoneme.inflectionIndex p /\
  Phoneme.payload p mod 64 = Phoneme.symbolIndex p /\
  Z.shiftr (Phoneme.payload p) 6 = Phoneme.inflectionIndex p /\
  Z.land (Phoneme.payload p) 63 = Phoneme.symbolIndex p.
Proof.
  intros p. subst p. rewrite ctor_payload.
  pose proof (ctor_inflection_range symbol inflection) as Hr.
  rewrite ctor_symbolIndex.
  assert (Hi : Phoneme.inflectionIndex (Phoneme.ctor symbol inflection) = 0 \/
               Phoneme.inflectionIndex (Phoneme.ctor symbol inflection) = 1 \/
               Phoneme.inflectionIndex (Phoneme.ctor symbol inflection) = 2 \/
               Phoneme.inflectionIndex (Phoneme.ctor symbol inflection) = 3)
    by lia.
  destruct (inflection =? charAt symbol 63);
    destruct Hi as [-> | [-> | [-> | ->]]]; vm_compute; intuition discriminate.
Qed.

Lemma get_past_end (s : string) (n : nat) :
  (String.length s <= n)%nat -> String.get n s = None.
Proof.
  revert n. induction s as [| c s IH]; intros n Hn; [reflexivity |].
  destruct n as [| n]; simpl in *; [lia |]. apply IH. lia.
Qed.

Lemma charAt_past_end (s : string) (i : Z) :
  Z.of_nat (String.length s) <= i -> charAt s i = 0.
Proof.
  intros Hi. unfold charAt. destruct (i <? 0); [reflexivity |].
  rewrite get_past_end by lia. reflexivity.
Qed.

(** Every name of the vocabulary is shorter than 64 characters. *)
Lemma validSymbols_short :
  Forall (fun s => (String.length s <= 63)%nat) validSymbols.
Proof. repeat constructor. Qed.

(** X2.  For a symbol name of at most 63 characters (every name of the
    vocabulary is one) the constructed phoneme does not depend on the name:
    it is the phoneme of the empty name, its symbol index is 63 for
    inflection 0 and 3 otherwise, and its payload is 63, 67, 131, 195 for the
    inflections 0, 1, 2, 3 and 3 for any other. *)
Theorem Phoneme_ignores_symbol (symbol : string) (inflection : Z) :
  (String.length symbol <= 63)%nat ->
  Phoneme.ctor symbol inflection = Phoneme.ctor "" inflection /\
  Phoneme.symbolIndex (Phoneme.ctor symbol inflection) =
    (if inflection =? 0 then 63 else 3) /\
  Phoneme.payload (Phoneme.ctor symbol inflection) =
    (if inflection =? 0 then 63
     else if (1 <=? inflection) && (inflection <=? 3) then 64 * inflection + 3
     else 3).
Proof.
  intros Hlen.
  assert (Hc : charAt symbol 63 = 0) by (apply charAt_past_end; lia).
  assert (Hloop : Phoneme.symbol_loop symbol inflection 3 =
                  if inflection =? 0 then 63 else 3)
    by (rewrite symbol_loop_last, Hc; reflexivity).
  assert (Hloop0 : Phoneme.symbol_loop "" inflection 3 =
                   if inflection =? 0 then 63 else 3)
    by (rewrite symbol_loop_last; reflexivity).
  split; [| split].
  - unfold Phoneme.ctor. rewrite Hloop, Hloop0. reflexivity.
  - rewrite ctor_symbolIndex, Hc. reflexivity.
  - unfold Phoneme.ctor. simpl Phoneme.payload. rewrite Hloop.
    destruct (inflection =? 0) eqn:E0; zbool.
    + subst inflection. reflexivity.
    + destruct (inflection >=? 0) eqn:E1, (inflection <=? 3) eqn:E3,
        (1 <=? inflection) eqn:E4; zbool; simpl; try lia;
        try reflexivity.
      assert (Hi : inflection = 1 \/ inflection = 2 \/ inflection = 3) by lia.
      destruct Hi as [-> | [-> | ->]]; reflexivity.
Qed.

Lemma Phoneme_ignores_symbol_witness :
  (String.length "STOP" <= 63)%nat /\
  Phoneme.ctor "STOP" 2 = Phoneme.ctor "" 2 /\
  Phoneme.payload (Phoneme.ctor "STOP" 2) = 131.
Proof.
  assert (H : (String.length "STOP" <= 63)%nat) by (simpl; lia).
  split; [exact H |].
  destruct (Phoneme_ignores_symbol "STOP" 2 H) as (H1 & _ & H3).
  split; [exact H1 | exact H3].
Defined.

(** ** Further properties of the chip link *)

(** Eight bits, most significant first, give back a byte. *)
Lemma byte_of_testbits (data : Z) :
  0 <= data < 256 ->
  byte_of_levels
    [ Z.testbit data 7; Z.testbit data 6; Z.testbit data 5; Z.testbit data 4;
      Z.testbit data 3; Z.testbit data 2; Z.testbit data 1; Z.testbit data 0 ]
  = data.
Proof.
  intros Hd.
  assert (Hall : forallb
                   (fun n : nat =>
                      byte_of_levels
                        [ Z.testbit (Z.of_nat n) 7; Z.testbit (Z.of_nat n) 6;
                          Z.testbit (Z.of_nat n) 5; Z.testbit (Z.of_nat n) 4;
                          Z.testbit (Z.of_nat n) 3; Z.testbit (Z.of_nat n) 2;
                          Z.testbit (Z.of_nat n) 1; Z.testbit (Z.of_nat n) 0 ]
                      =? Z.of_nat n)
                   (seq 0 256) = true) by (vm_compute; reflexivity).
  rewrite forallb_forall in Hall.
  specialize (Hall (Z.to_nat data)).
  rewrite Z2Nat.id in Hall by lia.
  apply Z.eqb_eq, Hall, in_seq. lia.
Qed.

Lemma load_events_levels (data : Z) :
  data_levels srData (load_events data) =
  [ Z.testbit data 7; Z.testbit data 6; Z.testbit data 5; Z.testbit data 4;
    Z.testbit data 3; Z.testbit data 2; Z.testbit data 1; Z.testbit data 0 ].
Proof. reflexivity. Qed.

Lemma load_events_pulses (data : Z) :
  high_writes srClk (load_events data) = 8%nat /\
  high_writes srLatch (load_events data) = 1%nat /\
  high_writes vStb (load_events data) = 0%nat.
Proof.
  unfold high_writes, load_events, shiftOut_events. simpl.
  repeat split; reflexivity.
Qed.

Lemma PatchSM_shiftUpdate_Done (data : Z) (w : World) :
  exists w',
    PatchSM.shiftUpdate data w = Done tt w' /\
    same_board w w' /\ pins w' = pins w ++ load_events data.
Proof.
  unfold PatchSM.shiftUpdate, shiftOut_MSBFIRST.
  destruct (emit_all_Done (shiftOut_events srData srClk data) w)
    as (w1 & E1 & B1 & P1).
  run E1. unfold bind at 1 2, digitalWrite, emit.
  match goal with |- context [debugPrint ?m ?w0] =>
    destruct (debugPrint_Done m w0) as (w2 & E2 & H2 & D2 & G2 & _ & _ & P2)
  end.
  exists w2. split; [exact E2 |]. simpl in *. unfold load_events.
  rewrite P2, P1, <- !app_assoc. board.
Qed.

(** X3.  shiftUpdate of a byte returns, and what it did to the pins is: the
    eight levels written to the data pin are the bits of the byte, the most
    significant first (read back in that order they give the byte again),
    with eight clock pulses and then one latch pulse, and no strobe; the
    same in both revisions. *)
Theorem shiftUpdate_sends_the_byte (data : Z) (w : World) :
  0 <= data < 256 ->
  exists w1 w2 evs,
    Ino.shiftUpdate data w = Done tt w1 /\
    PatchSM.shiftUpdate data w = Done tt w2 /\
    pins w1 = pins w ++ evs /\ pins w2 = pins w ++ evs /\
    byte_of_levels (data_levels srData evs) = data /\
    high_writes srClk evs = 8%nat /\
    high_writes srLatch evs = 1%nat /\
    high_writes vStb evs = 0%nat /\
    last evs = Some (DigitalWrite srLatch LOW).
Proof.
  intros Hd.
  destruct (Ino_shiftUpdate_Done data w) as (w1 & E1 & _ & P1).
  destruct (PatchSM_shiftUpdate_Done data w) as (w2 & E2 & _ & P2).
  destruct (load_events_pulses data) as (Hc & Hl & Hs).
  exists w1, w2, (load_events data).
  repeat split; try assumption.
  rewrite load_events_levels. apply byte_of_testbits. exact Hd.
Qed.

Lemma shiftUpdate_sends_the_byte_witness :
  let w := bench_world bench_idle false Grawlix_init in
  0 <= 131 < 256 /\
  exists w1 evs,
    Ino.shiftUpdate 131 w = Done tt w1 /\
    pins w1 = pins w ++ evs /\
    byte_of_levels (data_levels srData evs) = 131.
Proof.
  intros w. assert (H : 0 <= 131 < 256) by lia. split; [exact H |].
  destruct (shiftUpdate_sends_the_byte 131 w H)
    as (w1 & w2 & evs & E1 & _ & P1 & _ & Hb & _).
  exists w1, evs. repeat split; assumption.
Defined.











(** ** Further properties of the advance gate *)










(** ** The order of a round of say *)






(** ** Further properties of the main loop *)

(** X8.  No run of main, in either revision and however it ends (returning,
    spinning in advListen, faulting or still waiting for the button),
    changes [phonemeMode], [advanceMode] or [memoryIndex]: whatever position
    the mode switches are in, the modes stay what they were. *)
Theorem main_never_writes_modes (fuel : nat) (w : World) :
  same_modes w (outcome_world (Ino.main fuel w)) /\
  same_modes w (outcome_world (PatchSM.main fuel w)).
Proof. split; [apply Ino_main_modes | apply PatchSM_main_modes]. Qed.



Lemma after_samples_S (k : nat) (w : World) :
  after_samples k
    (mkWorld (hw w) (debug w) (g w) (S (now w)) (rng w) (pins w) (serial w))
  = after_samples (S k) w.
Proof.
  unfold after_samples. simpl. f_equal. lia.
Qed.

(** X10.  The wait that ends main polls the button once per sample and
    returns at the first sample at which the button reads pressed, having
    changed nothing but the number of samples taken; if the button is not
    pressed within the bound, the wait is still polling. *)
Theorem wait_button_first_press (fuel k : nat) (w : World) :
  (forall j, (j < k)%nat -> button_Pressed (hw w) (now w + j)%nat = false) ->
  ((k < fuel)%nat ->
   button_Pressed (hw w) (now w + k)%nat = true ->
   Ino.wait_button fuel w = Done tt (after_samples (S k) w)) /\
  (k = fuel -> Ino.wait_button fuel w = OutOfFuel (after_samples fuel w)).
Proof.
  revert k w. induction fuel as [| fuel IH]; intros k w Hlow.
  - split; [lia |]. intros _. simpl. unfold after_samples.
    rewrite Nat.add_0_r. destruct w; reflexivity.
  - simpl. unfold bind at 1, sample at 1.
    destruct k as [| k].
    + split; [| discriminate]. intros _ Hk.
      rewrite Nat.add_0_r in Hk. rewrite Hk. unfold ret, after_samples.
      f_equal. f_equal. lia.
    + assert (H0 : button_Pressed (hw w) (now w) = false)
        by (rewrite <- (Nat.add_0_r (now w)); apply Hlow; lia).
      rewrite H0. cbv beta iota.
      match goal with |- context [Ino.wait_button fuel ?w0] =>
        destruct (IH k w0) as [IHa IHb]
      end.
      { intros j Hj. simpl. rewrite <- Nat.add_succ_r. apply Hlow. lia. }
      split.
      * intros Hk Hp. rewrite <- after_samples_S.
        apply IHa; [lia |]. simpl. rewrite <- Nat.add_succ_r. exact Hp.
      * intros [= ->]. unfold bind at 1, sample at 1.
        rewrite H0. cbv beta iota.
        etransitivity; [apply IHb; reflexivity |].
        apply f_equal, after_samples_S.
Qed.

Lemma wait_button_first_press_witness :
  let w := bench_world bench_idle false Grawlix_init in
  let w2 := bench_world
              (mkBench false false false false true false true 0 0 7 1)
              false Grawlix_init in
  (forall j, (j < 5)%nat -> button_Pressed (hw w) (now w + j)%nat = false) /\
  Ino.wait_button 5 w = OutOfFuel (after_samples 5 w) /\
  (forall j, (j < 0)%nat -> button_Pressed (hw w2) (now w2 + j)%nat = false) /\
  (0 < 5)%nat /\ button_Pressed (hw w2) (now w2 + 0)%nat = true /\
  Ino.wait_button 5 w2 = Done tt (after_samples 1 w2).
Proof.
  intros w w2.
  assert (H : forall j, (j < 5)%nat ->
                        button_Pressed (hw w) (now w + j)%nat = false)
    by (intros j _; reflexivity).
  assert (H2 : forall j, (j < 0)%nat ->
                         button_Pressed (hw w2) (now w2 + j)%nat = false)
    by (intros j Hj; lia).
  assert (H3 : (0 < 5)%nat) by lia.
  assert (H4 : button_Pressed (hw w2) (now w2 + 0)%nat = true)
    by reflexivity.
  split; [exact H |].
  split; [destruct (wait_button_first_press 5 5 w H) as [_ Hb];
          exact (Hb eq_refl) |].
  split; [exact H2 |]. split; [exact H3 |]. split; [exact H4 |].
  destruct (wait_button_first_press 5 0 w2 H2) as [Ha _].
  exact (Ha H3 H4).
Defined.

(** ** Further properties of the Random source *)

Section RandomLoop.

(** The two revisions differ in where the seed comes from; the loop body is
    otherwise the same.  What follows holds of any body that writes entry
    [i] as the bodies of the revisions do. *)
Variable step : nat -> M unit.

Hypothesis step_spec :
  forall (i : nat) (w : World),
    (i < 32)%nat ->
    arrays_ok (phrase (g w)) ->
    exists w' k name v,
      step i w = Done tt w' /\
      0 <= k <= 62 /\ validSymbols !! Z.to_nat k = Some name /\
      0 <= v <= 2 /\
      phrase (g w') =
        Phrase.mk (<[i := name]> (Phrase.symbols (phrase (g w))))
                  (<[i := v]> (Phrase.inflections (phrase (g w))))
                  (Phrase.length (phrase (g w))).

Lemma random_loop_spec (m j : nat) (w : World) :
  (j + m <= 32)%nat ->
  arrays_ok (phrase (g w)) ->
  exists w',
    for_each (seq j m) step w = Done tt w' /\
    arrays_ok (phrase (g w')) /\
    Phrase.length (phrase (g w')) = Phrase.length (phrase (g w)) /\
    (forall i, (i < j \/ j + m <= i)%nat ->
       Phrase.symbols (phrase (g w')) !! i = Phrase.symbols (phrase (g w)) !! i /\
       Phrase.inflections (phrase (g w')) !! i =
         Phrase.inflections (phrase (g w)) !! i) /\
    (forall i, (j <= i < j + m)%nat -> entry_within 62 2 (phrase (g w')) i).
Proof.
  revert j w. induction m as [| m IH]; intros j w Hjm Hok.
  - exists w. simpl.
    split; [reflexivity |]. split; [exact Hok |]. split; [reflexivity |].
    split; [intros i Hi; split; reflexivity | intros i Hi; lia].
  - simpl.
    destruct (step_spec j w) as
      (w1 & k & name & v & E1 & Hk & Hname & Hv & Hp1); [lia | exact Hok |].
    run E1.
    assert (Hok1 : arrays_ok (phrase (g w1))).
    { destruct Hok as [Hs Hf]. rewrite Hp1. split; simpl;
        rewrite length_insert; assumption. }
    destruct (IH (S j) w1) as (w2 & E2 & Hok2 & Hlen & Hout & Hin);
      [lia | exact Hok1 |].
    exists w2. split; [exact E2 |]. split; [exact Hok2 |].
    split; [rewrite Hlen, Hp1; reflexivity |].
    split.
    + intros i Hi. destruct (Hout i) as [Ha Hb]; [lia |].
      rewrite Ha, Hb, Hp1. simpl.
      rewrite !list_lookup_insert_ne by lia. split; reflexivity.
    + intros i Hi. destruct (Nat.eq_dec i j) as [-> | Hne].
      * destruct (Hout j) as [Ha Hb]; [lia |].
        exists k, name, v. rewrite Ha, Hb, Hp1. simpl.
        destruct Hok as [Hs Hf].
        rewrite !list_lookup_insert_eq by lia.
        repeat split; auto; lia.
      * apply Hin. lia.
Qed.

(** setFromRandom from the draw of the length on. *)
Lemma random_rest_spec (w : World) :
  arrays_ok (phrase (g w)) ->
  exists w',
    (n <- random 4 10 ;;
     modify_phrase (Phrase.set_length n) ;;
     len <- gets (fun o => Phrase.length (phrase o)) ;;
     for_upto len step ;;
     debugPrint ("Generated new random phrase of length "
                 ++ String_of_int len)%string) w = Done tt w' /\
    arrays_ok (phrase (g w')) /\
    4 <= Phrase.length (phrase (g w')) < 10 /\
    (forall i : nat,
       Z.of_nat i < Phrase.length (phrase (g w')) ->
       entry_within 62 2 (phrase (g w')) i) /\
    (forall i : nat,
       Phrase.length (phrase (g w')) <= Z.of_nat i ->
       Phrase.symbols (phrase (g w')) !! i = Phrase.symbols (phrase (g w)) !! i /\
       Phrase.inflections (phrase (g w')) !! i =
         Phrase.inflections (phrase (g w)) !! i).
Proof.
  intros Hok.
  destruct (random_Done 4 10 w) as (n & w3 & E3 & Hn & G3); [lia |]. run E3.
  unfold bind at 1, modify_phrase at 1.
  unfold bind at 1, gets at 1. cbv beta. simpl g.
  set (w4 := mkWorld _ _ _ _ _ _ _).
  assert (G4 : phrase (g w4) = Phrase.set_length n (phrase (g w)))
    by (subst w4; simpl; congruence).
  assert (Hok4 : arrays_ok (phrase (g w4))) by (rewrite G4; exact Hok).
  assert (Hlen4 : Phrase.length (phrase (set_phrase
             (Phrase.set_length n (phrase (g w3))) (g w3))) = n)
    by reflexivity.
  rewrite Hlen4. unfold for_upto.
  destruct (random_loop_spec (Z.to_nat n) 0 w4)
    as (w5 & E5 & Hok5 & Hlen5 & Hout & Hin); [lia | exact Hok4 |].
  run E5.
  destruct (debugPrint_Done
              ("Generated new random phrase of length " ++ String_of_int n)%string
              w5) as (w6 & E6 & _ & _ & G6 & _).
  exists w6. split; [exact E6 |].
  rewrite G6, Hlen5, G4. simpl.
  split; [exact Hok5 |]. split; [lia |]. split.
  - intros i Hi. apply Hin. lia.
  - intros i Hi. destruct (Hout i) as [Ha Hb]; [lia |].
    rewrite Ha, Hb, G4. split; reflexivity.
Qed.

End RandomLoop.

Lemma sample_Done {A : Type} (f : Platform -> nat -> A) (w : World) :
  exists v w', sample f w = Done v w' /\ g w' = g w.
Proof. unfold sample. eexists; eexists; split; reflexivity. Qed.

(** One round of the loop of setFromRandom of [src/unnamed/part_000]. *)
Lemma PatchSM_setFromRandom_step_spec (i : nat) (w : World) :
  (i < 32)%nat ->
  arrays_ok (phrase (g w)) ->
  exists w' k name v,
    PatchSM.setFromRandom_step i w = Done tt w' /\
    0 <= k <= 62 /\ validSymbols !! Z.to_nat k = Some name /\
    0 <= v <= 2 /\
    phrase (g w') =
      Phrase.mk (<[i := name]> (Phrase.symbols (phrase (g w))))
                (<[i := v]> (Phrase.inflections (phrase (g w))))
                (Phrase.length (phrase (g w))).
Proof.
  intros Hi [Hs Hf]. unfold PatchSM.setFromRandom_step.
  destruct (sample_Done rdm_Value w) as (seed & w1 & E1 & G1). run E1.
  destruct (randomSeed_Done (float_to_long seed) w1) as (w2 & E2 & G2).
  run E2.
  destruct (random_Done 0 63 w2) as (k & w3 & E3 & Hk & G3); [lia |]. run E3.
  destruct (array_read_validSymbols k w3) as (name & E4 & Hname); [lia |].
  run E4.
  assert (G30 : g w3 = g w) by congruence.
  destruct (write_symbol_Done i name w3) as (w4 & E5 & G5);
    [rewrite G30, Hs; exact Hi |]. run E5.
  destruct (random_Done 0 3 w4) as (v & w5 & E6 & Hv & G6); [lia |]. run E6.
  destruct (write_inflection_Done i v w5) as (w6 & E7 & G7);
    [rewrite G6, G5, G30; simpl; rewrite Hf; exact Hi |].
  exists w6, k, name, v. split; [exact E7 |].
  split; [lia |]. split; [exact Hname |]. split; [lia |].
  rewrite G7, G6, G5, G30. reflexivity.
Qed.

(** X11.  setFromRandom of [src/grawlix.ino] keeps the two arrays at their
    32 entries and writes only the entries below the new length: every entry
    at or beyond it holds what it held before, so phonemes of an earlier,
    longer phrase stay in the buffer. *)
Theorem Ino_setFromRandom_keeps_tail (w : World) :
  arrays_ok (phrase (g w)) ->
  exists w',
    Ino.setFromRandom w = Done tt w' /\
    arrays_ok (phrase (g w')) /\
    forall i : nat,
      Phrase.length (phrase (g w')) <= Z.of_nat i ->
      Phrase.symbols (phrase (g w')) !! i = Phrase.symbols (phrase (g w)) !! i /\
      Phrase.inflections (phrase (g w')) !! i =
        Phrase.inflections (phrase (g w)) !! i.
Proof.
  intros Hok. unfold Ino.setFromRandom.
  destruct (analogRead_Done rdm w) as (seed & w1 & E1 & G1). run E1.
  destruct (randomSeed_Done seed w1) as (w2 & E2 & G2). run E2.
  destruct (random_rest_spec Ino.setFromRandom_step
              Ino_setFromRandom_step_spec w2)
    as (w' & E & Hok' & _ & _ & Htail);
    [rewrite G2, G1; exact Hok |].
  exists w'. split; [exact E |]. split; [exact Hok' |].
  intros i Hi. rewrite <- G1, <- G2. apply Htail. exact Hi.
Qed.

Lemma Ino_setFromRandom_keeps_tail_witness :
  let w := bench_world bench_idle false Grawlix_init in
  arrays_ok (phrase (g w)) /\
  exists w',
    Ino.setFromRandom w = Done tt w' /\ arrays_ok (phrase (g w')).
Proof.
  intros w.
  assert (H : arrays_ok (phrase (g w))) by (split; reflexivity).
  split; [exact H |].
  destruct (Ino_setFromRandom_keeps_tail w H) as (w' & E & Hok & _).
  exists w'. split; assumption.
Defined.

(** X12.  setFromRandom of [src/unnamed/part_000] returns with a length in
    [4,10), symbol indices in [0,62] and inflections in [0,2] in the entries
    below the length (never the symbol of index 63, never inflection 3), and
    the entries at or beyond the length as they were. *)
Theorem PatchSM_setFromRandom_ranges (w : World) :
  arrays_ok (phrase (g w)) ->
  exists w',
    PatchSM.setFromRandom w = Done tt w' /\
    4 <= Phrase.length (phrase (g w')) < 10 /\
    (forall i : nat,
       Z.of_nat i < Phrase.length (phrase (g w')) ->
       entry_within 62 2 (phrase (g w')) i /\
       Phrase.symbols (phrase (g w')) !! i <> Some "STOP"%string /\
       Phrase.inflections (phrase (g w')) !! i <> Some 3) /\
    (forall i : nat,
       Phrase.length (phrase (g w')) <= Z.of_nat i ->
       Phrase.symbols (phrase (g w')) !! i = Phrase.symbols (phrase (g w)) !! i /\
       Phrase.inflections (phrase (g w')) !! i =
         Phrase.inflections (phrase (g w)) !! i).
Proof.
  intros Hok. unfold PatchSM.setFromRandom.
  destruct (sample_Done rdm_Value w) as (seed & w1 & E1 & G1). run E1.
  destruct (randomSeed_Done (float_to_long seed) w1) as (w2 & E2 & G2).
  run E2.
  destruct (random_rest_spec PatchSM.setFromRandom_step
              PatchSM_setFromRandom_step_spec w2)
    as (w' & E & _ & Hlen & Hin & Htail);
    [rewrite G2, G1; exact Hok |].
  exists w'. split; [exact E |]. split; [exact Hlen |]. split.
  - intros i Hi. pose proof (Hin i Hi) as Hent. split; [exact Hent |].
    destruct Hent as (k & name & v & Hk & Hname & Hsym & Hinf & Hv).
    rewrite Hsym, Hinf. split.
    + intros [= ->]. apply validSymbols_STOP in Hname. lia.
    + intros [= ->]. lia.
  - intros i Hi. rewrite <- G1, <- G2. apply Htail. exact Hi.
Qed.

Lemma PatchSM_setFromRandom_ranges_witness :
  let w := bench_world bench_idle false Grawlix_init in
  arrays_ok (phrase (g w)) /\
  exists w',
    PatchSM.setFromRandom w = Done tt w' /\
    4 <= Phrase.length (phrase (g w')) < 10.
Proof.
  intros w.
  assert (H : arrays_ok (phrase (g w))) by (split; reflexivity).
  split; [exact H |].
  destruct (PatchSM_setFromRandom_ranges w H) as (w' & E & Hlen & _).
  exists w'. split; assumption.
Defined.

Lemma write_symbol_eq (i : nat) (name : string) (w : World) :
  (i < length (Phrase.symbols (phrase (g w))))%nat ->
  write_symbol (Z.of_nat i) name w =
  Done tt (mkWorld (hw w) (debug w)
             (set_phrase
                (Phrase.set_symbols
                   (<[i := name]> (Phrase.symbols (phrase (g w))))
                   (phrase (g w)))
                (g w))
             (now w) (rng w) (pins w) (serial w)).
Proof.
  intros Hi. unfold write_symbol, bind, gets, array_write.
  rewrite lookupZ_of_nat.
  destruct (lookup_lt_is_Some_2 _ _ Hi) as [old ->].
  unfold ret, modify_phrase. rewrite Nat2Z.id. reflexivity.
Qed.

Lemma write_inflection_eq (i : nat) (v : Z) (w : World) :
  (i < length (Phrase.inflections (phrase (g w))))%nat ->
  write_inflection (Z.of_nat i) v w =
  Done tt (mkWorld (hw w) (debug w)
             (set_phrase
                (Phrase.set_inflections
                   (<[i := v]> (Phrase.inflections (phrase (g w))))
                   (phrase (g w)))
                (g w))
             (now w) (rng w) (pins w) (serial w)).
Proof.
  intros Hi. unfold write_inflection, bind, gets, array_write.
  rewrite lookupZ_of_nat.
  destruct (lookup_lt_is_Some_2 _ _ Hi) as [old ->].
  unfold ret, modify_phrase. rewrite Nat2Z.id. reflexivity.
Qed.

Lemma analogRead_eq (pin : Pin) (w : World) :
  analogRead pin w =
  Done (analogRead_pin (hw w) pin (now w))
       (mkWorld (hw w) (debug w) (g w) (S (now w)) (rng w) (pins w) (serial w)).
Proof. reflexivity. Qed.

Lemma randomSeed_eq (seed : Z) (w : World) :
  u32 seed <> 0 ->
  randomSeed seed w =
  Done tt (mkWorld (hw w) (debug w) (g w) (now w)
             (srandom (hw w) (u32 seed)) (pins w) (serial w)).
Proof.
  intros H. unfold randomSeed.
  destruct (u32 seed =? 0) eqn:E; [zbool; contradiction | reflexivity].
Qed.

Lemma random_eq (a b : Z) (w : World) (r : N) (st : Z) :
  a < b ->
  random_raw (hw w) (rng w) = (r, st) ->
  random a b w =
  Done (random_range r a b)
       (mkWorld (hw w) (debug w) (g w) (now w) st (pins w) (serial w)).
Proof.
  intros Hab Hr. unfold random.
  destruct (a >=? b) eqn:E; [zbool; lia |].
  unfold bind, draw. rewrite Hr. reflexivity.
Qed.

Lemma array_read_eq {A : Type} (l : list A) (k : Z) (a : A) (w : World) :
  0 <= k -> l !! Z.to_nat k = Some a -> array_read l k w = Done a w.
Proof.
  intros Hk Hl. unfold array_read, lookupZ.
  destruct (k <? 0) eqn:E; [zbool; lia |]. rewrite Hl. reflexivity.
Qed.

Section ConstantNoise.

(** A noise pin that reads the same non-zero value [s] at every sample, and
    the two raw draws that follow a seeding with [s]. *)
Variable board : Platform.
Variable s : Z.
Variables (ra rb : N) (sa sb : Z).
Hypothesis noise : forall t, analogRead_pin board rdm t = s.
Hypothesis seed_nonzero : u32 s <> 0.
Hypothesis first_draw : random_raw board (srandom board (u32 s)) = (ra, sa).
Hypothesis second_draw : random_raw board sa = (rb, sb).

Lemma constant_noise_step (i : nat) (w : World) :
  hw w = board ->
  (i < 32)%nat ->
  arrays_ok (phrase (g w)) ->
  exists name w',
    validSymbols !! Z.to_nat (random_range ra 0 63) = Some name /\
    Ino.setFromRandom_step i w = Done tt w' /\
    hw w' = board /\
    phrase (g w') =
      Phrase.mk (<[i := name]> (Phrase.symbols (phrase (g w))))
                (<[i := random_range rb 0 3]>
                   (Phrase.inflections (phrase (g w))))
                (Phrase.length (phrase (g w))).
Proof.
  intros Hhw Hi [Hs Hf].
  pose proof (random_range_bounds ra 0 63 ltac:(lia)) as Hk.
  assert (Hlt : (Z.to_nat (random_range ra 0 63) < length validSymbols)%nat)
    by (change (length validSymbols) with 64%nat; lia).
  destruct (lookup_lt_is_Some_2 _ _ Hlt) as [name Hname].
  exists name. unfold Ino.setFromRandom_step.
  erewrite bind_Done_intro by apply analogRead_eq. cbv beta.
  rewrite Hhw, noise.
  erewrite bind_Done_intro by (apply randomSeed_eq; exact seed_nonzero).
  cbv beta. cbn [hw rng].
  erewrite bind_Done_intro
    by (apply (random_eq 0 63 _ ra sa); [lia | exact first_draw]).
  cbv beta. cbn [hw rng debug g now pins serial].
  erewrite bind_Done_intro by (apply array_read_eq; [lia | exact Hname]).
  cbv beta.
  erewrite bind_Done_intro
    by (apply write_symbol_eq; cbn [g]; rewrite Hs; exact Hi).
  cbv beta. cbn [hw rng debug g now pins serial].
  erewrite bind_Done_intro
    by (apply (random_eq 0 3 _ rb sb); [lia | exact second_draw]).
  cbv beta. cbn [hw rng debug g now pins serial].
  rewrite write_inflection_eq by (simpl; rewrite Hf; exact Hi).
  eexists. split; [exact Hname |]. split; [reflexivity |].
  split; reflexivity.
Qed.

Lemma constant_noise_loop (m j : nat) (w : World) :
  hw w = board ->
  (j + m <= 32)%nat ->
  arrays_ok (phrase (g w)) ->
  exists w',
    for_each (seq j m) Ino.setFromRandom_step w = Done tt w' /\
    Phrase.length (phrase (g w')) = Phrase.length (phrase (g w)) /\
    (forall i, (i < j)%nat ->
       Phrase.symbols (phrase (g w')) !! i = Phrase.symbols (phrase (g w)) !! i /\
       Phrase.inflections (phrase (g w')) !! i =
         Phrase.inflections (phrase (g w)) !! i) /\
    (forall i, (j <= i < j + m)%nat ->
       Phrase.symbols (phrase (g w')) !! i =
         validSymbols !! Z.to_nat (random_range ra 0 63) /\
       Phrase.inflections (phrase (g w')) !! i = Some (random_range rb 0 3)).
Proof.
  revert j w. induction m as [| m IH]; intros j w Hhw Hjm Hok.
  - exists w. simpl. split; [reflexivity |]. split; [reflexivity |].
    split; [intros i Hi; split; reflexivity | intros i Hi; lia].
  - simpl.
    destruct (constant_noise_step j w Hhw) as (name & w1 & Hname & E1 & H1 & Hp1);
      [lia | exact Hok |].
    run E1.
    assert (Hok1 : arrays_ok (phrase (g w1))).
    { destruct Hok as [Hs Hf]. rewrite Hp1. split; simpl;
        rewrite length_insert; assumption. }
    destruct (IH (S j) w1 H1) as (w2 & E2 & Hlen & Hlow & Hhigh);
      [lia | exact Hok1 |].
    exists w2. split; [exact E2 |].
    split; [rewrite Hlen, Hp1; reflexivity |].
    split.
    + intros i Hi. destruct (Hlow i) as [Ha Hb]; [lia |].
      rewrite Ha, Hb, Hp1. simpl.
      rewrite !list_lookup_insert_ne by lia. split; reflexivity.
    + intros i Hi. destruct (Nat.eq_dec i j) as [-> | Hne].
      * destruct (Hlow j) as [Ha Hb]; [lia |].
        rewrite Ha, Hb, Hp1. simpl. destruct Hok as [Hs Hf].
        rewrite !list_lookup_insert_eq by lia.
        split; [symmetry; exact Hname | reflexivity].
      * apply Hhigh. lia.
Qed.

Lemma constant_noise_phrase (w : World) :
  hw w = board ->
  arrays_ok (phrase (g w)) ->
  exists w',
    Ino.setFromRandom w = Done tt w' /\
    Phrase.length (phrase (g w')) = random_range ra 4 10 /\
    forall i : nat,
      Z.of_nat i < Phrase.length (phrase (g w')) ->
      Phrase.symbols (phrase (g w')) !! i =
        validSymbols !! Z.to_nat (random_range ra 0 63) /\
      Phrase.inflections (phrase (g w')) !! i = Some (random_range rb 0 3).
Proof.
  intros Hhw Hok.
  pose proof (random_range_bounds ra 4 10 ltac:(lia)) as Hn.
  unfold Ino.setFromRandom.
  erewrite bind_Done_intro by apply analogRead_eq. cbv beta.
  rewrite Hhw, noise.
  erewrite bind_Done_intro by (apply randomSeed_eq; exact seed_nonzero).
  cbv beta zeta. cbn [hw rng].
  erewrite bind_Done_intro
    by (apply (random_eq 4 10 _ ra sa); [lia | exact first_draw]).
  cbv beta. cbn [hw rng debug g now pins serial].
  unfold bind at 1, modify_phrase at 1.
  unfold bind at 1, gets at 1. cbv beta. cbn [hw rng debug g now pins serial].
  set (w4 := mkWorld _ _ _ _ _ _ _).
  change (Phrase.length (phrase (set_phrase
            (Phrase.set_length (random_range ra 4 10) (phrase (g w))) (g w))))
    with (random_range ra 4 10).
  unfold for_upto.
  destruct (constant_noise_loop (Z.to_nat (random_range ra 4 10)) 0 w4)
    as (w5 & E5 & Hlen5 & _ & Hhigh);
    [reflexivity | lia | subst w4; exact Hok |].
  run E5.
  match goal with |- context [debugPrint ?m w5] =>
    destruct (debugPrint_Done m w5) as (w6 & E6 & _ & _ & G6 & _)
  end.
  exists w6. split; [exact E6 |].
  rewrite G6, Hlen5. subst w4. simpl.
  split; [reflexivity |]. intros i Hi. apply Hhigh. lia.
Qed.

End ConstantNoise.

(** X13.  When the noise pin reads the same non-zero value at every sample,
    the generator is put back to the same state before the length is drawn
    and again in every round, so a Random phrase of [src/grawlix.ino] is one
    phoneme repeated: every entry below the length holds the same symbol and
    the same inflection, and the length and the symbol index come from the
    same raw draw [r] (length 4 + r mod 6, symbol index r mod 63). *)
Theorem Ino_setFromRandom_constant_noise (s : Z) (w : World) :
  arrays_ok (phrase (g w)) ->
  (forall t, analogRead_pin (hw w) rdm t = s) ->
  u32 s <> 0 ->
  let r1 := fst (random_raw (hw w) (srandom (hw w) (u32 s))) in
  let s1 := snd (random_raw (hw w) (srandom (hw w) (u32 s))) in
  let r2 := fst (random_raw (hw w) s1) in
  exists w',
    Ino.setFromRandom w = Done tt w' /\
    Phrase.length (phrase (g w')) = 4 + Z.of_N r1 mod 6 /\
    forall i : nat,
      Z.of_nat i < Phrase.length (phrase (g w')) ->
      Phrase.symbols (phrase (g w')) !! i =
        validSymbols !! Z.to_nat (Z.of_N r1 mod 63) /\
      Phrase.inflections (phrase (g w')) !! i = Some (Z.of_N r2 mod 3).
Proof.
  intros Hok Hnoise Hs r1 s1 r2.
  destruct (constant_noise_phrase (hw w) s r1 r2 s1
              (snd (random_raw (hw w) s1)) Hnoise Hs
              (surjective_pairing _) (surjective_pairing _) w eq_refl Hok)
    as (w' & E & Hlen & Hall).
  assert (Hr : forall (r : N) (a b : Z),
               a < b -> random_range r a b = a + Z.of_N r mod (b - a)).
    { intros r a b Hab. unfold random_range, random_upto.
      destruct (a >=? b) eqn:E1; [zbool; lia |].
      destruct (b - a =? 0) eqn:E2; [zbool; lia |].
      rewrite Z.rem_mod_nonneg by lia. lia. }
    exists w'. split; [exact E |].
    split; [rewrite Hlen, Hr by lia; reflexivity |].
    intros i Hi. destruct (Hall i Hi) as [Ha Hb].
    rewrite Ha, Hb, !Hr by lia. split; reflexivity.
Qed.

Lemma Ino_setFromRandom_constant_noise_witness :
  let w := bench_world bench_idle false Grawlix_init in
  arrays_ok (phrase (g w)) /\
  (forall t, analogRead_pin (hw w) rdm t = 7) /\
  u32 7 <> 0 /\
  exists w',
    Ino.setFromRandom w = Done tt w' /\
    forall i : nat,
      Z.of_nat i < Phrase.length (phrase (g w')) ->
      Phrase.symbols (phrase (g w')) !! i = Some "IU"%string.
Proof.
  intros w.
  assert (H1 : arrays_ok (phrase (g w))) by (split; reflexivity).
  assert (H2 : forall t, analogRead_pin (hw w) rdm t = 7)
    by (intros t; reflexivity).
  assert (H3 : u32 7 <> 0) by (vm_compute; discriminate).
  split; [exact H1 |]. split; [exact H2 |]. split; [exact H3 |].
  destruct (Ino_setFromRandom_constant_noise 7 w H1 H2 H3)
    as (w' & E & _ & Hall).
  exists w'. split; [exact E |].
  intros i Hi. destruct (Hall i Hi) as [Ha _]. exact Ha.
Defined.

(** A control value in [0,1) converts to 0. *)
Lemma float_to_long_below_one (q : Q) :
  (0 <= q)%Q -> (q < 1)%Q -> float_to_long q = 0.
Proof.
  destruct q as [n d]. unfold Qle, Qlt, float_to_long. simpl.
  intros Hlo Hhi. apply Z.quot_small. lia.
Qed.

(** X14.  In [src/unnamed/part_000] the seed is the noise control value
    converted to an integer.  When that value lies in [0,1) the seed is 0 and
    randomSeed leaves the generator alone: a round of the loop of
    setFromRandom then draws from the generator state it found, as if the
    reseeding were not there. *)
Theorem PatchSM_noise_below_one_never_seeds (i : nat) (w : World) :
  (0 <= rdm_Value (hw w) (now w))%Q ->
  (rdm_Value (hw w) (now w) < 1)%Q ->
  (seed <- sample rdm_Value ;; randomSeed (float_to_long seed)) w =
    Done tt (after_samples 1 w) /\
  PatchSM.setFromRandom_step i w =
    (index <- random 0 63 ;;
     name <- array_read validSymbols index ;;
     write_symbol (Z.of_nat i) name ;;
     r <- random 0 3 ;;
     write_inflection (Z.of_nat i) r) (after_samples 1 w).
Proof.
  intros Hlo Hhi.
  assert (Hseed : (seed <- sample rdm_Value ;;
                   randomSeed (float_to_long seed)) w =
                  Done tt (after_samples 1 w)).
  { unfold bind, sample, randomSeed.
    rewrite (float_to_long_below_one _ Hlo Hhi). simpl.
    unfold after_samples. f_equal. f_equal. lia. }
  split; [exact Hseed |].
  unfold PatchSM.setFromRandom_step.
  unfold bind at 1, sample at 1.
  rewrite (float_to_long_below_one _ Hlo Hhi).
  unfold bind at 1, randomSeed. change (u32 0 =? 0) with true. cbv iota beta.
  unfold after_samples. replace (now w + 1)%nat with (S (now w)) by lia.
  reflexivity.
Qed.

Lemma PatchSM_noise_below_one_never_seeds_witness :
  let w := bench_world
             (mkBench false false false false false false true 0 0 0 1)
             false Grawlix_init in
  (0 <= rdm_Value (hw w) (now w))%Q /\
  (rdm_Value (hw w) (now w) < 1)%Q /\
  (seed <- sample rdm_Value ;; randomSeed (float_to_long seed)) w =
    Done tt (after_samples 1 w).
Proof.
  intros w.
  assert (H1 : (0 <= rdm_Value (hw w) (now w))%Q)
    by (unfold Qle; simpl; lia).
  assert (H2 : (rdm_Value (hw w) (now w) < 1)%Q)
    by (unfold Qlt; simpl; lia).
  split; [exact H1 |]. split; [exact H2 |].
  destruct (PatchSM_noise_below_one_never_seeds 0 w H1 H2) as [H _].
  exact H.
Defined.

(** ** Further properties of the clock generators *)

Lemma u32_small (z : Z) : 0 <= z < 2 ^ 32 -> u32 z = z.
Proof. intros H. unfold u32. apply Z.mod_small. exact H. Qed.

Lemma u32_range (z : Z) : 0 <= u32 z < 2 ^ 32.
Proof. unfold u32. apply Z.mod_pos_bound. reflexivity. Qed.

Lemma u32_mul_l (a b : Z) : u32 (u32 a * b) = u32 (a * b).
Proof. unfold u32. apply Z.mul_mod_idemp_l. discriminate. Qed.

(** The period register follows the stored target frequency. *)
Lemma PatchSM_Init_in_sync (pclk2 arr0 ccr0 : Z) :
  let s := PatchSM.HardwarePWM.Init
             (PatchSM.HardwarePWM.construct pclk2 arr0 ccr0) in
  PatchSM.HardwarePWM.freqToTicks s (PatchSM.HardwarePWM.target_freq s) =
    Some (PatchSM.HardwarePWM.ARR s).
Proof. reflexivity. Qed.

(** setPulseWidth, on an object whose period follows its frequency. *)
Lemma setPulseWidth_spec (pw : Z) (s : PatchSM.HardwarePWM.t) :
  PatchSM.HardwarePWM.freqToTicks s (PatchSM.HardwarePWM.target_freq s) =
    Some (PatchSM.HardwarePWM.ARR s) ->
  PatchSM.HardwarePWM.setPulseWidth pw s =
    Some (PatchSM.HardwarePWM.set_registers
            (PatchSM.HardwarePWM.ARR s)
            (u32 (PatchSM.HardwarePWM.ARR s * u32 pw - 1))
            (PatchSM.HardwarePWM.set_target_pw (u32 pw) s)).
Proof.
  intros Hs. unfold PatchSM.HardwarePWM.setPulseWidth. cbv zeta.
  change (PatchSM.HardwarePWM.freqToTicks
            (PatchSM.HardwarePWM.set_target_pw (u32 pw) s)
            (PatchSM.HardwarePWM.target_freq
               (PatchSM.HardwarePWM.set_target_pw (u32 pw) s)))
    with (PatchSM.HardwarePWM.freqToTicks s
            (PatchSM.HardwarePWM.target_freq s)).
  rewrite Hs. reflexivity.
Qed.

Lemma PatchSM_op_in_sync (o : PatchSM.HardwarePWM.Op)
    (s s' : PatchSM.HardwarePWM.t) :
  PatchSM.HardwarePWM.MHz s = 12 /\
  PatchSM.HardwarePWM.freqToTicks s (PatchSM.HardwarePWM.target_freq s) =
    Some (PatchSM.HardwarePWM.ARR s) ->
  PatchSM.HardwarePWM.apply_op o s = Some s' ->
  PatchSM.HardwarePWM.MHz s' = 12 /\
  PatchSM.HardwarePWM.freqToTicks s' (PatchSM.HardwarePWM.target_freq s') =
    Some (PatchSM.HardwarePWM.ARR s').
Proof.
  intros [HM Hs]. destruct o as [k v | pw]; simpl.
  - intros E.
    destruct (setFreq_members k v s s' E) as (HM' & _ & _ & _ & _ & Hsync).
    split; [congruence | exact Hsync].
  - rewrite (setPulseWidth_spec pw s Hs). intros [= <-].
    split; [exact HM | exact Hs].
Qed.

Lemma PatchSM_run_in_sync (ops : list PatchSM.HardwarePWM.Op)
    (s s' : PatchSM.HardwarePWM.t) :
  PatchSM.HardwarePWM.MHz s = 12 /\
  PatchSM.HardwarePWM.freqToTicks s (PatchSM.HardwarePWM.target_freq s) =
    Some (PatchSM.HardwarePWM.ARR s) ->
  PatchSM.HardwarePWM.run ops s = Some s' ->
  PatchSM.HardwarePWM.MHz s' = 12 /\
  PatchSM.HardwarePWM.freqToTicks s' (PatchSM.HardwarePWM.target_freq s') =
    Some (PatchSM.HardwarePWM.ARR s').
Proof.
  revert s. induction ops as [| o ops IH]; intros s Hs Hrun; simpl in Hrun.
  - injection Hrun as <-. exact Hs.
  - destruct (PatchSM.HardwarePWM.apply_op o s) as [s1 |] eqn:E;
      [| discriminate].
    apply (IH s1); [| exact Hrun]. exact (PatchSM_op_in_sync o s s1 Hs E).
Qed.

(** A run of calls has a result exactly when each of its setFreq calls has
    arguments with which setFreq completes; setPulseWidth always
    completes. *)
Lemma PatchSM_run_defined (ops : list PatchSM.HardwarePWM.Op)
    (s : PatchSM.HardwarePWM.t) :
  PatchSM.HardwarePWM.MHz s = 12 /\
  PatchSM.HardwarePWM.freqToTicks s (PatchSM.HardwarePWM.target_freq s) =
    Some (PatchSM.HardwarePWM.ARR s) ->
  Forall PatchSM.HardwarePWM.op_completes ops <->
  exists s', PatchSM.HardwarePWM.run ops s = Some s'.
Proof.
  revert s. induction ops as [| o ops IH]; intros s Hs.
  - simpl. split; [intros _; eexists; reflexivity | intros _; constructor].
  - simpl. split.
    + intros H. apply Forall_cons_1 in H as [Ho Hrest].
      assert (E : exists s1, PatchSM.HardwarePWM.apply_op o s = Some s1).
      { destruct o as [k v | pw]; simpl in *.
        - apply (setFreq_defined k v s (proj1 Hs)). exact Ho.
        - rewrite (setPulseWidth_spec pw s (proj2 Hs)). eexists. reflexivity. }
      destruct E as [s1 E1]. rewrite E1.
      apply (IH s1); [| exact Hrest].
      exact (PatchSM_op_in_sync o s s1 Hs E1).
    + intros [s' Hrun].
      destruct (PatchSM.HardwarePWM.apply_op o s) as [s1 |] eqn:E1;
        [| discriminate Hrun].
      constructor.
      * destruct o as [k v | pw]; simpl in *; [| exact I].
        apply (setFreq_defined k v s (proj1 Hs)). exists s1. exact E1.
      * apply (IH s1); [| exists s'; exact Hrun].
        exact (PatchSM_op_in_sync o s s1 Hs E1).
Qed.

(** X15.  A sequence of setFreq and setPulseWidth calls after Init
    completes exactly when each of its setFreq calls has, as 16-bit values,
    a frequency knob that is not zero and a pitch value from 1 to 4.  After
    such a sequence the period register ARR is the tick count of the stored
    target frequency, which is not zero, so that a further setPulseWidth
    always has a result; that call leaves the period as it is, stores the
    duty value cut to 32 bits and writes (ARR * duty - 1) modulo 2^32 to
    CCR1, which for duty 1 and a period of at least 1 is ARR - 1. *)
Theorem PatchSM_period_in_sync
    (pclk2 arr0 ccr0 : Z) (ops : list PatchSM.HardwarePWM.Op) :
  let s0 := PatchSM.HardwarePWM.Init
              (PatchSM.HardwarePWM.construct pclk2 arr0 ccr0) in
  (Forall PatchSM.HardwarePWM.op_completes ops <->
   exists s, PatchSM.HardwarePWM.run ops s0 = Some s) /\
  forall s,
    PatchSM.HardwarePWM.run ops s0 = Some s ->
    PatchSM.HardwarePWM.freqToTicks s (PatchSM.HardwarePWM.target_freq s) =
      Some (PatchSM.HardwarePWM.ARR s) /\
    PatchSM.HardwarePWM.target_freq s <> 0 /\
    0 <= PatchSM.HardwarePWM.ARR s < 2 ^ 32 /\
    (forall pw,
       exists s',
         PatchSM.HardwarePWM.setPulseWidth pw s = Some s' /\
         PatchSM.HardwarePWM.ARR s' = PatchSM.HardwarePWM.ARR s /\
         PatchSM.HardwarePWM.target_freq s' =
           PatchSM.HardwarePWM.target_freq s /\
         PatchSM.HardwarePWM.target_pw s' = u32 pw /\
         PatchSM.HardwarePWM.CCR1 s' =
           u32 (PatchSM.HardwarePWM.ARR s * u32 pw - 1)) /\
    (1 <= PatchSM.HardwarePWM.ARR s ->
     exists s',
       PatchSM.HardwarePWM.setPulseWidth 1 s = Some s' /\
       PatchSM.HardwarePWM.CCR1 s' = PatchSM.HardwarePWM.ARR s' - 1).
Proof.
  intros s0.
  assert (H0 : PatchSM.HardwarePWM.MHz s0 = 12 /\
               PatchSM.HardwarePWM.freqToTicks s0
                 (PatchSM.HardwarePWM.target_freq s0) =
                 Some (PatchSM.HardwarePWM.ARR s0))
    by (split; [reflexivity | apply PatchSM_Init_in_sync]).
  split; [apply PatchSM_run_defined; exact H0 |].
  intros s Hrun.
  destruct (PatchSM_run_in_sync ops s0 s H0 Hrun) as [_ Hsync].
  assert (Hfreq : PatchSM.HardwarePWM.target_freq s <> 0).
  { intros Hz. unfold PatchSM.HardwarePWM.freqToTicks in Hsync.
    rewrite Hz in Hsync. discriminate Hsync. }
  assert (Harr : 0 <= PatchSM.HardwarePWM.ARR s < 2 ^ 32).
  { unfold PatchSM.HardwarePWM.freqToTicks in Hsync. cbv zeta in Hsync.
    destruct (_ =? 0) in Hsync; [discriminate |].
    injection Hsync as <-. apply u32_range. }
  assert (Hpw : forall pw,
     exists s',
       PatchSM.HardwarePWM.setPulseWidth pw s = Some s' /\
       PatchSM.HardwarePWM.ARR s' = PatchSM.HardwarePWM.ARR s /\
       PatchSM.HardwarePWM.target_freq s' = PatchSM.HardwarePWM.target_freq s /\
       PatchSM.HardwarePWM.target_pw s' = u32 pw /\
       PatchSM.HardwarePWM.CCR1 s' =
         u32 (PatchSM.HardwarePWM.ARR s * u32 pw - 1)).
  { intros pw. rewrite (setPulseWidth_spec pw s Hsync).
    eexists. split; [reflexivity |]. simpl. auto. }
  split; [exact Hsync |]. split; [exact Hfreq |]. split; [exact Harr |].
  split; [exact Hpw |].
  intros H1. destruct (Hpw 1) as (s' & E & Ha & _ & _ & Hc).
  exists s'. split; [exact E |].
  rewrite Hc, Ha. change (u32 1) with 1. rewrite Z.mul_1_r.
  apply u32_small. lia.
Qed.

Lemma PatchSM_period_in_sync_witness :
  let ops := [ PatchSM.HardwarePWM.OpSetFreq 1 1;
               PatchSM.HardwarePWM.OpSetPulseWidth 2;
               PatchSM.HardwarePWM.OpSetFreq 3 2 ] in
  exists s,
    PatchSM.HardwarePWM.run ops
      (PatchSM.HardwarePWM.Init
         (PatchSM.HardwarePWM.construct 100000000 65535 0)) = Some s /\
    PatchSM.HardwarePWM.freqToTicks s (PatchSM.HardwarePWM.target_freq s) =
      Some (PatchSM.HardwarePWM.ARR s).
Proof.
  intros ops.
  destruct (PatchSM_period_in_sync 100000000 65535 0 ops) as [Hdef Hsync].
  assert (Hc : Forall PatchSM.HardwarePWM.op_completes ops).
  { repeat constructor; vm_compute; discriminate. }
  destruct (proj1 Hdef Hc) as [s E].
  exists s. split; [exact E | exact (proj1 (Hsync s E))].
Defined.

(** X16.  setFreq of [src/unnamed/part_000], on an object of the class
    (whose member MHz is 10 xor 6, that is 12).  The parameters are 16 bits
    wide: an argument acts as its value modulo 65536.  The call has a result
    exactly when the knob value is not zero and the pitch value is 1 to 4:
    a pitch value of 5 or more reads the table of multipliers at index
    [voct_val * 37 / 5], past its 37 entries, and a zero in either
    parameter makes the frequency zero, by which the tick count divides.
    The value read from the table and the scaled knob play no part in the
    result: the frequency is 8640 * freq_knob * voct_val (which cannot
    wrap), ARR is clock / frequency - 1 and CCR1 is ARR times the stored
    pulse width, both modulo 2^32, and the pulse width is kept. *)
Theorem PatchSM_setFreq_result (k v : Z) (s : PatchSM.HardwarePWM.t) :
  PatchSM.HardwarePWM.MHz s = 12 ->
  PatchSM.HardwarePWM.setFreq k v s =
    PatchSM.HardwarePWM.setFreq (u16 k) (u16 v) s /\
  ((exists s', PatchSM.HardwarePWM.setFreq k v s = Some s') <->
   u16 k <> 0 /\ 1 <= u16 v <= 4) /\
  (5 <= u16 v ->
   PatchSM.HardwarePWM.setFreq_voct_mult (u16 v) = None /\
   37 <= PatchSM.HardwarePWM.setFreq_voct_index (u16 v)) /\
  forall s',
    PatchSM.HardwarePWM.setFreq k v s = Some s' ->
    PatchSM.HardwarePWM.target_freq s' = 8640 * u16 k * u16 v /\
    PatchSM.HardwarePWM.ARR s' =
      u32 (PatchSM.HardwarePWM.system_clock_rate s
           / PatchSM.HardwarePWM.target_freq s' - 1) /\
    PatchSM.HardwarePWM.CCR1 s' =
      u32 (PatchSM.HardwarePWM.ARR s' * PatchSM.HardwarePWM.target_pw s) /\
    PatchSM.HardwarePWM.target_pw s' = PatchSM.HardwarePWM.target_pw s.
Proof.
  intros HM. pose proof (u16_range v) as Hv.
  split; [| split; [| split]].
  - unfold PatchSM.HardwarePWM.setFreq. cbv zeta.
    rewrite !u16_idem. reflexivity.
  - symmetry. apply (setFreq_defined k v s HM).
  - intros H5.
    assert (Hnone : PatchSM.HardwarePWM.setFreq_voct_mult (u16 v) = None).
    { destruct (PatchSM.HardwarePWM.setFreq_voct_mult (u16 v)) as [q |] eqn:E;
        [| reflexivity].
      assert (u16 v <= 4)
        by (apply (setFreq_voct_mult_defined (u16 v)); [lia | exists q; exact E]).
      lia. }
    split; [exact Hnone |].
    unfold PatchSM.HardwarePWM.setFreq_voct_index, map_long.
    change PatchSM.in_max with 5. rewrite Z.sub_0_r, Z.add_0_r.
    change (37 - 0) with 37. change (5 - 0) with 5.
    rewrite Z.quot_div_nonneg by lia.
    apply Z.div_le_lower_bound; lia.
  - intros s' E.
    assert (Hc : PatchSM.HardwarePWM.setFreq_completes k v)
      by (apply (setFreq_defined k v s HM); exists s'; exact E).
    rewrite (proj1 (setFreq_spec k v s HM) Hc) in E. cbv zeta in E.
    injection E as <-. simpl. repeat split; reflexivity.
Qed.

Lemma PatchSM_setFreq_result_witness :
  let s := PatchSM.HardwarePWM.Init
             (PatchSM.HardwarePWM.construct 100000000 65535 0) in
  PatchSM.HardwarePWM.MHz s = 12 /\
  PatchSM.HardwarePWM.setFreq 65537 1 s = PatchSM.HardwarePWM.setFreq 1 1 s /\
  (exists s', PatchSM.HardwarePWM.setFreq 3 2 s = Some s') /\
  PatchSM.HardwarePWM.setFreq 1 5 s = None /\
  PatchSM.HardwarePWM.setFreq 0 1 s = None.
Proof.
  intros s. assert (HM : PatchSM.HardwarePWM.MHz s = 12) by reflexivity.
  split; [exact HM |].
  destruct (PatchSM_setFreq_result 65537 1 s HM) as (Hcut & _).
  destruct (PatchSM_setFreq_result 3 2 s HM) as (_ & Hdef & _).
  destruct (PatchSM_setFreq_result 1 5 s HM) as (_ & Hdef5 & _).
  destruct (PatchSM_setFreq_result 0 1 s HM) as (_ & Hdef0 & _).
  split; [exact Hcut |]. split.
  - apply (proj2 Hdef). vm_compute. repeat split; discriminate.
  - split.
    + destruct (PatchSM.HardwarePWM.setFreq 1 5 s) as [s' |] eqn:E;
        [| reflexivity].
      destruct (proj1 Hdef5 (ex_intro _ s' eq_refl)) as [_ [_ H4]].
      vm_compute in H4. exfalso. apply H4. reflexivity.
    + destruct (PatchSM.HardwarePWM.setFreq 0 1 s) as [s' |] eqn:E;
        [| reflexivity].
      destruct (proj1 Hdef0 (ex_intro _ s' eq_refl)) as [H0 _].
      exfalso. apply H0. reflexivity.
Defined.

(** A control value in (-1,1] converts to 1 when it is 1 and to 0
    otherwise. *)
Lemma float_to_long_full_scale (q : Q) :
  (-1 < q)%Q -> (q <= 1)%Q ->
  ((q == 1)%Q /\ float_to_long q = 1) \/ (~ (q == 1)%Q /\ float_to_long q = 0).
Proof.
  destruct q as [n d]. unfold Qlt, Qle, Qeq, float_to_long. simpl.
  intros Hlo Hhi.
  destruct (Z.eq_dec n (Z.pos d)) as [-> | Hne].
  - left. split; [lia | apply Z.quot_same; lia].
  - right. split; [lia |].
    destruct (Z_lt_le_dec n 0) as [Hneg | Hpos].
    + replace n with (- (- n)) by lia.
      rewrite Z.quot_opp_l by lia. rewrite Z.quot_small by lia. reflexivity.
    + apply Z.quot_small. lia.
Qed.

(** X22.  The one call of setFreq that the sketch makes, in setup of
    [src/unnamed/part_000], passes the two control values [freq.Value()] and
    [voct.Value()] for the 16-bit integer parameters.  A control value below
    1 converts to 0: the call has a result only when both controls read
    exactly 1, and then the frequency is 8640, the period is
    clock / 8640 - 1 and the compare value is 0.  For every other pair of
    readings the frequency is zero and the tick count divides by it. *)
Theorem PatchSM_setup_clock_needs_full_scale
    (pclk2 arr0 ccr0 : Z) (freq voct : Q) :
  (-1 < freq)%Q -> (freq <= 1)%Q -> (-1 < voct)%Q -> (voct <= 1)%Q ->
  ((exists s, PatchSM.setup_clock pclk2 arr0 ccr0 freq voct = Some s) <->
   (freq == 1 /\ voct == 1)%Q) /\
  forall s,
    PatchSM.setup_clock pclk2 arr0 ccr0 freq voct = Some s ->
    PatchSM.HardwarePWM.target_freq s = 8640 /\
    PatchSM.HardwarePWM.ARR s = u32 (u32 pclk2 / 8640 - 1) /\
    PatchSM.HardwarePWM.CCR1 s = 0.
Proof.
  intros Hf1 Hf2 Hv1 Hv2. unfold PatchSM.setup_clock.
  set (s0 := PatchSM.HardwarePWM.Init
               (PatchSM.HardwarePWM.construct pclk2 arr0 ccr0)).
  assert (HM : PatchSM.HardwarePWM.MHz s0 = 12) by reflexivity.
  assert (Hpw : PatchSM.HardwarePWM.target_pw s0 = 0)
    by (apply HardwarePWM_Init_registers).
  assert (Hclk : PatchSM.HardwarePWM.system_clock_rate s0 = u32 pclk2)
    by reflexivity.
  assert (Hone : PatchSM.HardwarePWM.setFreq 1 1 s0 =
                 Some (PatchSM.HardwarePWM.set_registers
                         (u32 (u32 pclk2 / 8640 - 1))
                         (u32 (u32 (u32 pclk2 / 8640 - 1) * 0))
                         (PatchSM.HardwarePWM.set_target_freq 8640 s0))).
  { rewrite (proj1 (setFreq_spec 1 1 s0 HM)).
    - cbv zeta. rewrite Hpw, Hclk. reflexivity.
    - split; vm_compute; [discriminate | split; discriminate]. }
  assert (Hzero : forall a b,
            a = 0 \/ b = 0 -> PatchSM.HardwarePWM.setFreq a b s0 = None).
  { intros a b Hab. apply (proj2 (setFreq_spec a b s0 HM)).
    unfold PatchSM.HardwarePWM.setFreq_completes.
    destruct Hab as [-> | ->]; change (u16 0) with 0; lia. }
  destruct (float_to_long_full_scale freq Hf1 Hf2) as [[Ef Ef'] | [Ef Ef']];
    destruct (float_to_long_full_scale voct Hv1 Hv2) as [[Ev Ev'] | [Ev Ev']];
    rewrite Ef', Ev'.
  - split.
    + split; [intros _; split; assumption | intros _].
      rewrite Hone. eexists. reflexivity.
    + intros s. rewrite Hone. intros [= <-]. simpl.
      rewrite Z.mul_0_r. repeat split; reflexivity.
  - rewrite (Hzero 1 0) by (right; reflexivity). split.
    + split; [intros [s E]; discriminate E | tauto].
    + intros s E. discriminate E.
  - rewrite (Hzero 0 1) by (left; reflexivity). split.
    + split; [intros [s E]; discriminate E | tauto].
    + intros s E. discriminate E.
  - rewrite (Hzero 0 0) by (left; reflexivity). split.
    + split; [intros [s E]; discriminate E | tauto].
    + intros s E. discriminate E.
Qed.

Lemma PatchSM_setup_clock_needs_full_scale_witness :
  (-1 < 1 # 2)%Q /\ (1 # 2 <= 1)%Q /\ (-1 < 1)%Q /\ (1 <= 1)%Q /\
  PatchSM.setup_clock 100000000 65535 0 (1 # 2) 1 = None /\
  exists s, PatchSM.setup_clock 100000000 65535 0 1 1 = Some s.
Proof.
  assert (H1 : (-1 < 1 # 2)%Q) by (unfold Qlt; simpl; lia).
  assert (H2 : (1 # 2 <= 1)%Q) by (unfold Qle; simpl; lia).
  assert (H3 : (-1 < 1)%Q) by (unfold Qlt; simpl; lia).
  assert (H4 : (1 <= 1)%Q) by (unfold Qle; simpl; lia).
  split; [exact H1 |]. split; [exact H2 |]. split; [exact H3 |].
  split; [exact H4 |].
  destruct (PatchSM_setup_clock_needs_full_scale 100000000 65535 0 (1 # 2) 1
              H1 H2 H3 H4) as [Hhalf _].
  destruct (PatchSM_setup_clock_needs_full_scale 100000000 65535 0 1 1
              H3 H4 H3 H4) as [Hfull _].
  split.
  - destruct (PatchSM.setup_clock 100000000 65535 0 (1 # 2) 1) as [s |] eqn:E;
      [| reflexivity].
    destruct (proj1 Hhalf (ex_intro _ s eq_refl)) as [Hq _].
    unfold Qeq in Hq. simpl in Hq. discriminate Hq.
  - apply (proj2 Hfull). split; reflexivity.
Defined.

(** X17.  The centre frequency written [720 * kHz] with [kHz = 10^3] is
    720 * 9 = 6480, for [^] is exclusive or.  For a timer clock of at least
    6480 (and below 2^32) Init therefore sets the period to
    clock / 6480 - 1 and the compare value to 0; for a clock below 6480 the
    subtraction wraps and the period is 4294967295. *)
Theorem PatchSM_Init_period (pclk2 arr0 ccr0 : Z) :
  0 <= pclk2 < 2 ^ 32 ->
  let s := PatchSM.HardwarePWM.Init
             (PatchSM.HardwarePWM.construct pclk2 arr0 ccr0) in
  PatchSM.HardwarePWM.default_freq s = 6480 /\
  PatchSM.HardwarePWM.target_freq s = 6480 /\
  PatchSM.HardwarePWM.CCR1 s = 0 /\
  (6480 <= pclk2 -> PatchSM.HardwarePWM.ARR s = pclk2 / 6480 - 1) /\
  (pclk2 < 6480 -> PatchSM.HardwarePWM.ARR s = 4294967295).
Proof.
  intros Hp s.
  destruct (HardwarePWM_Init_registers pclk2 arr0 ccr0) as (Hc & _ & _).
  split; [reflexivity |]. split; [reflexivity |]. split; [exact Hc |].
  assert (Harr : PatchSM.HardwarePWM.ARR s = u32 (u32 pclk2 / 6480 - 1))
    by reflexivity.
  rewrite Harr, (u32_small pclk2 Hp).
  split; intros H.
  - apply u32_small.
    assert (1 <= pclk2 / 6480) by (apply Z.div_le_lower_bound; lia).
    assert (pclk2 / 6480 <= pclk2) by (apply Z.div_le_upper_bound; lia).
    lia.
  - rewrite Z.div_small by lia. reflexivity.
Qed.

Lemma PatchSM_Init_period_witness :
  0 <= 100000000 < 2 ^ 32 /\ 6480 <= 100000000 /\
  PatchSM.HardwarePWM.ARR
    (PatchSM.HardwarePWM.Init
       (PatchSM.HardwarePWM.construct 100000000 65535 0)) = 15431.
Proof.
  assert (H : 0 <= 100000000 < 2 ^ 32) by (split; [lia | reflexivity]).
  assert (H2 : 6480 <= 100000000) by lia.
  split; [exact H |]. split; [exact H2 |].
  destruct (PatchSM_Init_period 100000000 65535 0 H) as (_ & _ & _ & Ha & _).
  exact (Ha H2).
Defined.

(** X18.  The HardwarePWM of [src/grawlix.ino] computes with unsigned
    integers.  After Init the period is 556 and the compare value its half,
    278.  The tick period [1/system_clock_rate] is 0 for every timer clock
    above 1 Hz, and setFreq divides by it: for such a clock setFreq has no
    result, whatever its arguments. *)
Theorem Ino_HardwarePWM_setFreq_divides_by_zero
    (pclk2 presc0 period0 pwm0 : Z) :
  2 <= u32 pclk2 ->
  exists s,
    Ino.HardwarePWM.construct pclk2 presc0 period0 pwm0 = Some s /\
    Ino.HardwarePWM.system_tick_period s = 0 /\
    Ino.HardwarePWM.timer_prescaler (Ino.HardwarePWM.Init s) = 0 /\
    Ino.HardwarePWM.timer_period (Ino.HardwarePWM.Init s) = 556 /\
    Ino.HardwarePWM.pwm_value (Ino.HardwarePWM.Init s) = 278 /\
    forall hz duty,
      Ino.HardwarePWM.setFreq hz duty s = None /\
      Ino.HardwarePWM.setFreq hz duty (Ino.HardwarePWM.Init s) = None.
Proof.
  intros Hclk. unfold Ino.HardwarePWM.construct. cbv zeta.
  rewrite Z.div_1_r.
  destruct (u32 pclk2 =? 0) eqn:E; [zbool; lia |].
  eexists. split; [reflexivity |].
  assert (Htick : 1 / u32 pclk2 = 0) by (apply Z.div_small; lia).
  simpl. rewrite Htick.
  repeat split; try reflexivity;
    unfold Ino.HardwarePWM.setFreq; simpl;
    destruct (u32 hz =? 0); reflexivity.
Qed.

Lemma Ino_HardwarePWM_setFreq_divides_by_zero_witness :
  2 <= u32 100000000 /\
  exists s,
    Ino.HardwarePWM.construct 100000000 0 65535 0 = Some s /\
    Ino.HardwarePWM.setFreq 720000 50 (Ino.HardwarePWM.Init s) = None.
Proof.
  assert (H : 2 <= u32 100000000) by (vm_compute; discriminate).
  split; [exact H |].
  destruct (Ino_HardwarePWM_setFreq_divides_by_zero 100000000 0 65535 0 H)
    as (s & E & _ & _ & _ & _ & Hf).
  exists s. split; [exact E |]. apply Hf.
Defined.

(** ** The pin configuration of setup *)

(** X19.  The pin block of setup of [src/grawlix.ino] configures the
    acknowledge pin as an input and then calls pinMode(i, OUTPUT) with the
    loop counter: the pins made outputs are exactly the pins 0 to 5, and
    none of the pins the sketch names (strobe, clock, shift register data,
    latch and clock among them) is ever made an output. *)
Theorem setup_configures_no_named_output :
  (forall n : Z, In (n, Ino.OUTPUT) Ino.setup_pinModes <-> 0 <= n <= 5) /\
  (forall p : Pin, ~ In (pin_number p, Ino.OUTPUT) Ino.setup_pinModes) /\
  In (pin_number vAr, Ino.INPUT) Ino.setup_pinModes /\
  Forall (fun n => n <> 0 -> ~ In (n, Ino.OUTPUT) Ino.setup_pinModes)
         Ino.outPins.
Proof.
  assert (Hout : forall n : Z,
             In (n, Ino.OUTPUT) Ino.setup_pinModes <-> 0 <= n <= 5).
  { intros n. unfold Ino.setup_pinModes. simpl. split.
    - intros [H | [H | [H | [H | [H | [H | [H | []]]]]]]];
        inversion H; lia.
    - intros H.
      assert (Hn : n = 0 \/ n = 1 \/ n = 2 \/ n = 3 \/ n = 4 \/ n = 5) by lia.
      destruct Hn as [-> | [-> | [-> | [-> | [-> | ->]]]]]; tauto. }
  split; [exact Hout |]. split; [| split].
  - intros p H. apply Hout in H. destruct p; simpl in H; lia.
  - left. reflexivity.
  - repeat constructor; intros Hn H; apply Hout in H; simpl in H; lia.
Qed.

(** ** Further properties of the Grid source *)




(** ** The debug log *)

Lemma quiet_refl (w : World) : quiet w w.
Proof. split; [reflexivity | intros _; reflexivity]. Qed.

Lemma quiet_trans (w1 w2 w3 : World) :
  quiet w1 w2 -> quiet w2 w3 -> quiet w1 w3.
Proof.
  intros [D1 S1] [D2 S2]. split; [congruence |].
  intros H. rewrite S2, S1; [reflexivity | exact H | congruence].
Qed.

Lemma quiet_bind {A B : Type} (m : M A) (k : A -> M B) :
  preserves quiet m -> (forall a, preserves quiet (k a)) ->
  preserves quiet (bind m k).
Proof. apply preserves_bind, quiet_trans. Qed.

Lemma debugPrint_quiet (message : string) : preserves quiet (debugPrint message).
Proof.
  intros w. unfold debugPrint. destruct (debug w) eqn:E; simpl.
  - split; [simpl; symmetry; exact E | intros H; congruence].
  - apply quiet_refl.
Qed.

Lemma sample_quiet {A : Type} (f : Platform -> nat -> A) :
  preserves quiet (sample f).
Proof. intros w. split; [reflexivity | intros _; reflexivity]. Qed.

Lemma emit_quiet (e : Event) : preserves quiet (emit e).
Proof. intros w. split; [reflexivity | intros _; reflexivity]. Qed.

Lemma modify_phrase_quiet (f : Phrase.t -> Phrase.t) :
  preserves quiet (modify_phrase f).
Proof. intros w. split; [reflexivity | intros _; reflexivity]. Qed.

Lemma randomSeed_quiet (seed : Z) : preserves quiet (randomSeed seed).
Proof.
  intros w. unfold randomSeed.
  destruct (u32 seed =? 0); split; try reflexivity; intros _; reflexivity.
Qed.

Lemma draw_quiet : preserves quiet draw.
Proof.
  intros w. unfold draw. destruct (random_raw (hw w) (rng w)).
  split; [reflexivity | intros _; reflexivity].
Qed.

Lemma emit_all_quiet (l : list Event) : preserves quiet (emit_all l).
Proof.
  induction l as [| e l IH]; simpl.
  - apply (preserves_ret quiet quiet_refl).
  - apply quiet_bind; [apply emit_quiet | intros ?; exact IH].
Qed.

Ltac quiet_step :=
  lazymatch goal with
  | |- preserves _ (bind _ _) => apply quiet_bind; [| intros ?]
  | |- preserves _ (if _ then _ else _) => apply (preserves_if quiet)
  | |- preserves _ (for_each _ _) =>
      apply (preserves_for_each quiet quiet_refl quiet_trans); intros ?
  | |- preserves _ (emit_all _) => apply emit_all_quiet
  | |- preserves _ (debugPrint _) => apply debugPrint_quiet
  | |- preserves _ (sample _) => apply sample_quiet
  | |- preserves _ (emit _) => apply emit_quiet
  | |- preserves _ (modify_phrase _) => apply modify_phrase_quiet
  | |- preserves _ (randomSeed _) => apply randomSeed_quiet
  | |- preserves _ draw => apply draw_quiet
  | |- preserves _ (ret _) => apply (preserves_ret quiet quiet_refl)
  | |- preserves _ spin => apply (preserves_spin quiet quiet_refl)
  | |- preserves _ fault => apply (preserves_fault quiet quiet_refl)
  | |- preserves _ (gets _) => apply (preserves_gets quiet quiet_refl)
  | |- preserves _ (array_read _ _) =>
      apply (preserves_array_read quiet quiet_refl)
  | |- preserves _ (array_write _ _ _) =>
      apply (preserves_array_write quiet quiet_refl)
  end.

Lemma Ino_wait_button_quiet (fuel : nat) :
  preserves quiet (Ino.wait_button fuel).
Proof.
  induction fuel as [| fuel IH]; simpl.
  - intros w. apply quiet_refl.
  - apply quiet_bind; [apply sample_quiet |].
    intros []; [apply (preserves_ret quiet quiet_refl) | exact IH].
Qed.

Lemma PatchSM_wait_button_quiet (fuel : nat) :
  preserves quiet (PatchSM.wait_button fuel).
Proof.
  induction fuel as [| fuel IH]; simpl.
  - intros w. apply quiet_refl.
  - apply quiet_bind; [apply sample_quiet |].
    intros []; [apply (preserves_ret quiet quiet_refl) | exact IH].
Qed.

Lemma Ino_main_quiet (fuel : nat) : preserves quiet (Ino.main fuel).
Proof.
  unfold Ino.main. apply quiet_bind; [| intros ?]; [| apply quiet_bind].
  - unfold Ino.main_switch, Ino.case_memory, Ino.case_grid, Ino.case_random,
      setFromMemory, Ino.setFromGrid, Ino.setFromRandom, for_upto,
      Ino.setFromRandom_step, write_symbol, write_inflection, updateMode,
      analogRead, random.
    repeat quiet_step.
  - apply (preserves_gets quiet quiet_refl).
  - intros p. apply quiet_bind; [| intros ?; apply Ino_wait_button_quiet].
    unfold Ino.say, for_upto, Ino.say_step, Ino.shiftUpdate,
      shiftOut_MSBFIRST, Ino.advListen, Ino.advListen_switch, Ino.case_auto,
      Ino.case_button, Ino.case_gate, arUpdate, strobe, Phoneme_new,
      indeterminate_bool, digitalRead, digitalWrite, delay, updateMode.
    repeat quiet_step.
Qed.

Lemma PatchSM_main_quiet (fuel : nat) : preserves quiet (PatchSM.main fuel).
Proof.
  unfold PatchSM.main. apply quiet_bind; [| intros ?]; [| apply quiet_bind].
  - unfold PatchSM.main_switch, PatchSM.case_memory, PatchSM.case_grid,
      PatchSM.case_random, setFromMemory, PatchSM.setFromGrid,
      PatchSM.setFromRandom, for_upto, PatchSM.setFromRandom_step,
      write_symbol, write_inflection, updateMode, analogRead, random.
    repeat quiet_step.
  - apply (preserves_gets quiet quiet_refl).
  - intros p. apply quiet_bind; [| intros ?; apply PatchSM_wait_button_quiet].
    unfold PatchSM.say, for_upto, PatchSM.say_step, PatchSM.shiftUpdate,
      shiftOut_MSBFIRST, PatchSM.advListen, PatchSM.advListen_switch,
      PatchSM.case_auto, PatchSM.case_button, PatchSM.case_gate, arUpdate,
      strobe, Phoneme_new, indeterminate_bool, digitalRead, digitalWrite,
      delay, updateMode.
    repeat quiet_step.
Qed.

(** X21.  The sketch never assigns the debug flag, and every line it prints
    goes through debugPrint: with the flag off (as the sketch ships) a run
    of main prints nothing, in either revision and however the run ends. *)
Theorem main_prints_only_in_debug (fuel : nat) (w : World) :
  debug w = false ->
  debug (outcome_world (Ino.main fuel w)) = false /\
  serial (outcome_world (Ino.main fuel w)) = serial w /\
  debug (outcome_world (PatchSM.main fuel w)) = false /\
  serial (outcome_world (PatchSM.main fuel w)) = serial w.
Proof.
  intros Hd.
  destruct (Ino_main_quiet fuel w) as [D1 S1].
  destruct (PatchSM_main_quiet fuel w) as [D2 S2].
  rewrite D1, D2, S1, S2 by exact Hd. repeat split; exact Hd.
Qed.

Lemma main_prints_only_in_debug_witness :
  let w := bench_world bench_idle false Grawlix_init in
  debug w = false /\
  serial (outcome_world (Ino.main 3 w)) = serial w /\
  serial (outcome_world (PatchSM.main 3 w)) = serial w.
Proof.
  intros w. assert (H : debug w = false) by reflexivity.
  split; [exact H |].
  destruct (main_prints_only_in_debug 3 w H) as (_ & S1 & _ & S2).
  split; assumption.
Defined.
